(** * Identity sessions and real-time presence of the HoroHouse backend

    A shallow embedding of the session part of [AuthService]
    (src/auth/auth.service.ts), of [JwtStrategy] and [JwtAuthGuard]
    (src/auth/strategies/jwt.strategy.ts, src/auth/guards/jwt.auth.guard.ts)
    and of the presence registry kept by [NotificationsGateway]
    (src/notifications/notifications.gateway.ts), followed by the
    properties of the specification that concern them.

    Conventions.
    - A [Date] is the number of milliseconds since the epoch, in [Z]; the
      dates of stored sessions are valid dates, and [new_Date] tells
      whether a computed time value makes one.
    - The user collection is a finite map from [_id] to the document;
      [findById] is a lookup and [save] writes the whole document back.
    - One service call observes one clock instant and, where it mints a
      session, one value of [crypto.randomUUID()]; both are read from the
      environment [Env].
    - A thrown exception leaves the store as the statements before the
      [throw] left it: the monad [M] threads the store through failures. *)

From Stdlib Require Import ZArith Lia Ascii String.
From stdpp Require Import gmap strings list fin_maps sorting.

#[local] Open Scope string_scope.
#[local] Open Scope Z_scope.
#[local] Open Scope list_scope.

(** ** JavaScript odds and ends *)

(** [!!s] for a string that may be [undefined]: the empty string and
    [undefined] are falsy. *)
Definition truthy (s : option string) : bool :=
  match s with
  | Some s => negb (String.eqb s "")
  | None => false
  end.

(** [Array.prototype.sort] with a comparator is stable: [sort_insert]
    places [x] in front of the first element it does not have to follow,
    so that elements that compare equal keep their relative order. *)
Fixpoint sort_insert {A : Type} (cmp : A → A → Z) (x : A) (l : list A) : list A :=
  match l with
  | [] => [x]
  | y :: l' => if cmp x y <=? 0 then x :: y :: l' else y :: sort_insert cmp x l'
  end.

Definition Array_sort {A : Type} (cmp : A → A → Z) (l : list A) : list A :=
  foldr (sort_insert cmp) [] l.

(** ** Tokens

    [JwtService] (package @nestjs/jwt) is not part of the repository.  A
    token is modelled by what it signs: the secret, the payload and the
    [iat] and [exp] claims in seconds.  Any other string is [Garbage]. *)

Inductive UserRole := ADMIN | AGENT | REGISTERED_USER | GUEST.

Module JwtPayload.
Record t := mk {
  sub : string;
  phoneNumber : string;
  email : option string;
  role : UserRole;
  sessionId : string;
}.
End JwtPayload.

Inductive Jwt :=
| Garbage (raw : string)
| Signed (secret : string) (payload : JwtPayload.t) (iat exp : Z).

#[global] Instance UserRole_eq_dec : EqDecision UserRole.
Proof. solve_decision. Defined.
#[global] Instance JwtPayload_eq_dec : EqDecision JwtPayload.t.
Proof. solve_decision. Defined.
#[global] Instance Jwt_eq_dec : EqDecision Jwt.
Proof. solve_decision. Defined.

(** The configuration read through [ConfigService], and the one function
    of the JWT library that reads it: [timespan] is what the library makes
    of an [expiresIn] string, a number of seconds, or [None] for a string
    it does not read as a timespan. *)
Record Config := {
  JWT_SECRET : string;
  JWT_REFRESH_SECRET : string;
  JWT_EXPIRATION : option string;
  JWT_REFRESH_EXPIRATION : option string;
  timespan : string → option Z;
}.

(** The [expiresIn] of the access token is the
    [configService.get('JWT_EXPIRATION', '15m')] of the module registration
    (src/auth/auth.module.ts), that of the refresh token the
    [configService.get('JWT_REFRESH_EXPIRATION', '7d')] of [generateTokens].
    The service parses the latter a second time, by [parseTokenExpiration],
    for the session deadline. *)
Definition accessLifetime (config : Config) : option Z :=
  timespan config (default "15m" (JWT_EXPIRATION config)).
Definition refreshLifetime (config : Config) : option Z :=
  timespan config (default "7d" (JWT_REFRESH_EXPIRATION config)).

(** [jwtService.signAsync(payload, {secret, expiresIn})] at instant [now];
    the promise is rejected when [expiresIn] is not a timespan. *)
Definition jwt_sign (secret : string) (expiresIn : option Z) (now : Z)
    (payload : JwtPayload.t) : option Jwt :=
  match expiresIn with
  | Some lifetime =>
      Some (Signed secret payload (now `div` 1000) (now `div` 1000 + lifetime))
  | None => None
  end.

(** [jwtService.verify(token, {secret})]: the payload, unless the token is
    malformed, signed with another secret, or past its [exp]. *)
Definition jwt_verify (secret : string) (now : Z) (token : Jwt) : option JwtPayload.t :=
  match token with
  | Garbage _ => None
  | Signed secret' payload _ exp =>
      if bool_decide (secret' = secret) && (now `div` 1000 <? exp)
      then Some payload else None
  end.

(** What a token carries, whoever reads it. *)
Definition jwt_decode (token : Jwt) : option JwtPayload.t :=
  match token with
  | Garbage _ => None
  | Signed _ payload _ _ => Some payload
  end.

(** ** Documents (src/users/schemas/user.schema.ts) *)

Module UserSession.
Record t := mk {
  id : string;
  refreshToken : Jwt;
  device : string;
  ipAddress : string;
  userAgent : string;
  location : option string;
  isActive : bool;
  lastActive : Z;
  createdAt : Z;
  expiresAt : Z;
}.

Definition set_refreshToken (v : Jwt) (s : t) : t :=
  mk (id s) v (device s) (ipAddress s) (userAgent s) (location s)
     (isActive s) (lastActive s) (createdAt s) (expiresAt s).
Definition set_lastActive (v : Z) (s : t) : t :=
  mk (id s) (refreshToken s) (device s) (ipAddress s) (userAgent s) (location s)
     (isActive s) v (createdAt s) (expiresAt s).
Definition set_ipAddress (v : string) (s : t) : t :=
  mk (id s) (refreshToken s) (device s) v (userAgent s) (location s)
     (isActive s) (lastActive s) (createdAt s) (expiresAt s).
Definition set_userAgent (v : string) (s : t) : t :=
  mk (id s) (refreshToken s) (device s) (ipAddress s) v (location s)
     (isActive s) (lastActive s) (createdAt s) (expiresAt s).
End UserSession.

(** The fields of [User] that the session code reads or writes. *)
Module User.
Record t := mk {
  _id : string;
  phoneNumber : string;
  email : option string;
  role : UserRole;
  isActive : bool;
  sessions : list UserSession.t;
}.

Definition set_sessions (v : list UserSession.t) (u : t) : t :=
  mk (_id u) (phoneNumber u) (email u) (role u) (isActive u) v.
End User.

(** A session as it leaves the service: [refreshToken] deleted by the
    [toJSON] transform, or set to [undefined] by [getUserSessions]. *)
Module SessionView.
Record t := mk {
  id : string;
  refreshToken : option Jwt;
  device : string;
  ipAddress : string;
  userAgent : string;
  location : option string;
  isActive : bool;
  lastActive : Z;
  createdAt : Z;
  expiresAt : Z;
}.
End SessionView.

Module UserJSON.
Record t := mk {
  id : string;
  phoneNumber : string;
  email : option string;
  role : UserRole;
  isActive : bool;
  sessions : list SessionView.t;
}.
End UserJSON.

Definition hide_refreshToken (s : UserSession.t) : SessionView.t :=
  SessionView.mk (UserSession.id s) None (UserSession.device s)
    (UserSession.ipAddress s) (UserSession.userAgent s) (UserSession.location s)
    (UserSession.isActive s) (UserSession.lastActive s) (UserSession.createdAt s)
    (UserSession.expiresAt s).

(** The [toJSON] transform of [UserSchema], on the fields kept here. *)
Definition toJSON (u : User.t) : UserJSON.t :=
  UserJSON.mk (User._id u) (User.phoneNumber u) (User.email u) (User.role u)
    (User.isActive u) (hide_refreshToken <$> User.sessions u).

(** What the service derives from the HTTP request for display:
    [getClientIp(req)], [req.headers['user-agent'] || 'Unknown'],
    [parseDeviceInfo(userAgent, req.body.deviceInfo)] and
    [getLocationFromIp(ipAddress)].  These helpers only build the strings
    stored below; they are taken as given. *)
Record Request := {
  clientIp : string;
  userAgentHeader : string;
  deviceName : string;
  ipLocation : string;
}.

(** The same four values when [req] is [undefined]. *)
Definition no_request : Request :=
  {| clientIp := "Unknown";
     userAgentHeader := "Unknown";
     deviceName := "Unknown Browser on Unknown OS";
     ipLocation := "Local Network" |}.

(** ** Exceptions, environment and the service monad *)

(** [TimespanError] is the error of the JWT library for an [expiresIn]
    that is not a timespan. *)
Inductive Exception :=
| UnauthorizedException (message : string)
| NotFoundException (message : string)
| JsonWebTokenError
| TimespanError.

Inductive Result (A : Type) :=
| Ok (a : A)
| Throw (e : Exception).
Arguments Ok {A} a.
Arguments Throw {A} e.

Record Env := {
  cfg : Config;
  now : Z;
  randomUUID : string;
}.

Abbreviation Store := (gmap string User.t).

Definition M (A : Type) : Type := Env → Store → Result A * Store.

Definition ret {A} (a : A) : M A := λ _ st, (Ok a, st).
Definition throw {A} (e : Exception) : M A := λ _ st, (Throw e, st).
Definition bind {A B} (m : M A) (k : A → M B) : M B :=
  λ env st,
    match m env st with
    | (Ok a, st') => k a env st'
    | (Throw e, st') => (Throw e, st')
    end.
(** [try { m } catch (error) { h error }]. *)
Definition try_catch {A} (m : M A) (h : Exception → M A) : M A :=
  λ env st,
    match m env st with
    | (Ok a, st') => (Ok a, st')
    | (Throw e, st') => h e env st'
    end.
Definition ask : M Env := λ env st, (Ok env, st).

(** Whether a call returned rather than threw. *)
Definition returned {A} (outcome : Result A * Store) : bool :=
  match outcome.1 with
  | Ok _ => true
  | Throw _ => false
  end.

Notation "'let*' x := m 'in' k" := (bind m (λ x, k))
  (at level 10, x pattern, m at level 100, k at level 200).
Notation "m ;;; k" := (bind m (λ _, k))
  (at level 100, k at level 200, right associativity).

(** [this.userModel.findById(id)] matches documents on their [_id]; the
    key of the map is the index on that field.  [doc.save()] files the
    document under its [_id]. *)
Definition document (st : Store) (id : string) : option User.t :=
  match st !! id with
  | Some doc => if bool_decide (User._id doc = id) then Some doc else None
  | None => None
  end.
Definition findById (id : string) : M (option User.t) :=
  λ _ st, (Ok (document st id), st).
Definition save (u : User.t) : M unit :=
  λ _ st, (Ok tt, <[User._id u := u]> st).

(** ** AuthService (src/auth/auth.service.ts) *)

Definition is_digit (c : ascii) : bool :=
  (48 <=? Z.of_nat (nat_of_ascii c)) && (Z.of_nat (nat_of_ascii c) <=? 57).

Definition is_unit (c : ascii) : bool :=
  bool_decide (c = "s"%char) || bool_decide (c = "m"%char)
  || bool_decide (c = "h"%char) || bool_decide (c = "d"%char).

Definition digit_value (c : ascii) : Z := Z.of_nat (nat_of_ascii c) - 48.

(** The regular expression [/^(\d+)([smhd])$/]: the decimal value of the
    digits and the unit character.  [acc] is [None] until a digit is read. *)
Fixpoint match_expiration (acc : option Z) (s : string) : option (Z * ascii) :=
  match s with
  | EmptyString => None
  | String c EmptyString =>
      match acc with
      | Some n => if is_unit c then Some (n, c) else None
      | None => None
      end
  | String c s' =>
      if is_digit c then match_expiration (Some (10 * default 0 acc + digit_value c)) s'
      else None
  end.

(** [parseTokenExpiration(expiration)], in milliseconds.  The source
    computes in doubles: [parseInt] and the products are exact, and are the
    integers computed here, as long as the result is at most 2^53.  Past
    that the double may differ from the integer, and both are past the
    greatest time value of a [Date], which is what [generateTokens], the
    one caller, asks of them. *)
Definition parseTokenExpiration (expiration : string) : Z :=
  match match_expiration None expiration with
  | None => 7 * 24 * 60 * 60 * 1000
  | Some (num, unit) =>
      if bool_decide (unit = "s"%char) then num * 1000
      else if bool_decide (unit = "m"%char) then num * 60 * 1000
      else if bool_decide (unit = "h"%char) then num * 60 * 60 * 1000
      else if bool_decide (unit = "d"%char) then num * 24 * 60 * 60 * 1000
      else 7 * 24 * 60 * 60 * 1000
  end.

(** What [generateTokens] returns. *)
Module Tokens.
Record t := mk {
  accessToken : Jwt;
  refreshToken : Jwt;
}.
End Tokens.

(** [{...tokens, user: user.toJSON()}]. *)
Module AuthTokens.
Record t := mk {
  accessToken : Jwt;
  refreshToken : Jwt;
  user : UserJSON.t;
}.
End AuthTokens.

(** [req] may be [undefined]. *)
Definition request_info (req : option Request) : Request := default no_request req.

(** The comparator of the session cap:
    [(a, b) => b.lastActive.getTime() - a.lastActive.getTime()]. *)
Definition by_lastActive_desc (a b : UserSession.t) : Z :=
  UserSession.lastActive b - UserSession.lastActive a.

(** The greatest time value of a [Date], 8.64e15 ms either side of the
    epoch.  [new Date(value)] of a value beyond it is an Invalid Date: its
    time value is [NaN] and every comparison with it is false. *)
Definition max_time : Z := 8640000000000000.

Definition new_Date (value : Z) : option Z :=
  if bool_decide (- max_time ≤ value ≤ max_time) then Some value else None.

(** [generateTokens(user, req, existingSessionId)].  The document [user] is
    mutated in place by the source; the mutated document is returned next to
    the tokens so that the caller goes on with it.  Both tokens are signed
    before anything else is done: when the library rejects one of the
    lifetimes the call throws and nothing is saved.  A new session whose
    deadline is an Invalid Date fails [session.expiresAt > now] and leaves
    with the purge that follows its push. *)
Definition generateTokens (user : User.t) (req : option Request)
    (existingSessionId : option string) : M (Tokens.t * User.t) :=
  let* env := ask in
  let sessionId :=
    if truthy existingSessionId then default "" existingSessionId else randomUUID env in
  let payload :=
    JwtPayload.mk (User._id user) (User.phoneNumber user) (User.email user)
      (User.role user) sessionId in
  match jwt_sign (JWT_SECRET (cfg env)) (accessLifetime (cfg env)) (now env) payload,
        jwt_sign (JWT_REFRESH_SECRET (cfg env)) (refreshLifetime (cfg env)) (now env)
          payload with
  | Some accessToken, Some refreshToken =>
      if negb (truthy existingSessionId) then
        let refreshTokenExpirationTime := default "7d" (JWT_REFRESH_EXPIRATION (cfg env)) in
        let expirationMs := parseTokenExpiration refreshTokenExpirationTime in
        let info := request_info req in
        let live :=
          match new_Date (now env + expirationMs) with
          | Some expiresAt =>
              let newSession :=
                UserSession.mk sessionId refreshToken (deviceName info) (clientIp info)
                  (userAgentHeader info) (Some (ipLocation info)) true (now env) (now env)
                  expiresAt in
              let pushed := User.sessions user ++ [newSession] in
              filter (λ session, now env < UserSession.expiresAt session) pushed
          | None =>
              filter (λ session, now env < UserSession.expiresAt session) (User.sessions user)
          end in
        let capped :=
          if bool_decide (10 < length live)%nat
          then take 10 (Array_sort by_lastActive_desc live)
          else live in
        let user' := User.set_sessions capped user in
        save user' ;;;
        ret (Tokens.mk accessToken refreshToken, user')
      else
        match list_find (λ s, UserSession.id s = sessionId) (User.sessions user) with
        | Some (sessionIndex, _) =>
            let user' :=
              User.set_sessions
                (alter (λ s, UserSession.set_lastActive (now env)
                               (UserSession.set_refreshToken refreshToken s))
                       sessionIndex (User.sessions user)) user in
            save user' ;;;
            ret (Tokens.mk accessToken refreshToken, user')
        | None =>
            ret (Tokens.mk accessToken refreshToken, user)
        end
  | _, _ => throw TimespanError
  end.

(** The tail shared by [loginWithPhone], [loginWithEmail], [googleAuth] and
    the two registrations once the credentials are accepted:
    [generateTokens(user, req)] and the answer built from it. *)
Definition login (user : User.t) (req : option Request) : M AuthTokens.t :=
  let* (tokens, user') := generateTokens user req None in
  ret (AuthTokens.mk (Tokens.accessToken tokens) (Tokens.refreshToken tokens) (toJSON user')).

(** Lines 462-475 of [refreshToken]: the session is looked up by the
    [sessionId] of the payload among the active sessions and, failing that,
    by the value of the token itself.  The result is the element found and
    its index, since the source goes on mutating it in place. *)
Definition locate_session (payload : JwtPayload.t) (token : Jwt)
    (sessions : list UserSession.t) : option (nat * UserSession.t) :=
  let by_id :=
    if truthy (Some (JwtPayload.sessionId payload))
    then list_find (λ s, UserSession.id s = JwtPayload.sessionId payload
                         ∧ UserSession.isActive s = true) sessions
    else None in
  match by_id with
  | Some found => Some found
  | None =>
      list_find (λ s, UserSession.refreshToken s = token
                      ∧ UserSession.isActive s = true) sessions
  end.

(** [refreshToken(refreshToken, req)].  [session] is a reference into
    [user.sessions]: it is kept as the index [i] of the element found. *)
Definition refreshToken (token : Jwt) (req : option Request) : M AuthTokens.t :=
  try_catch
    (let* env := ask in
     match jwt_verify (JWT_REFRESH_SECRET (cfg env)) (now env) token with
     | None => throw JsonWebTokenError
     | Some payload =>
         let* found := findById (JwtPayload.sub payload) in
         match found with
         | None => throw (UnauthorizedException "User not found or inactive")
         | Some user =>
             if negb (User.isActive user)
             then throw (UnauthorizedException "User not found or inactive")
             else
               match locate_session payload token (User.sessions user) with
               | None =>
                   throw (UnauthorizedException "Invalid refresh token - session not found")
               | Some (i, session) =>
                   if bool_decide (UserSession.expiresAt session < now env) then
                     save (User.set_sessions
                             (filter (λ s, UserSession.id s ≠ UserSession.id session)
                                     (User.sessions user)) user) ;;;
                     throw (UnauthorizedException "Session expired")
                   else
                     let touch s :=
                       let s := UserSession.set_lastActive (now env) s in
                       match req with
                       | Some r =>
                           UserSession.set_userAgent (userAgentHeader r)
                             (UserSession.set_ipAddress (clientIp r) s)
                       | None => s
                       end in
                     let user := User.set_sessions (alter touch i (User.sessions user)) user in
                     save user ;;;
                     let* (tokens, user) :=
                       generateTokens user req (Some (UserSession.id session)) in
                     ret (AuthTokens.mk (Tokens.accessToken tokens)
                            (Tokens.refreshToken tokens) (toJSON user))
               end
         end
     end)
    (λ error, throw (UnauthorizedException "Invalid refresh token")).

(** [validateUser(payload)]. *)
Definition validateUser (payload : JwtPayload.t) : M User.t :=
  let* found := findById (JwtPayload.sub payload) in
  match found with
  | None => throw (UnauthorizedException "User not found or inactive")
  | Some user =>
      if negb (User.isActive user)
      then throw (UnauthorizedException "User not found or inactive")
      else
        let* env := ask in
        match list_find (λ s, UserSession.id s = JwtPayload.sessionId payload
                              ∧ UserSession.isActive s = true)
                        (User.sessions user) with
        | None => throw (UnauthorizedException "Session invalid or expired")
        | Some (_, session) =>
            if bool_decide (UserSession.expiresAt session < now env)
            then throw (UnauthorizedException "Session invalid or expired")
            else ret user
        end
  end.

(** [logout(userId, sessionId)]: the [catch] block only logs. *)
Definition logout (userId : string) (sessionId : option string) : M unit :=
  try_catch
    (let* found := findById userId in
     match found with
     | None => throw (NotFoundException "User not found")
     | Some user =>
         let remaining :=
           if truthy sessionId
           then filter (λ s, UserSession.id s ≠ default "" sessionId) (User.sessions user)
           else [] in
         save (User.set_sessions remaining user)
     end)
    (λ error, ret tt).

(** The [user] argument of the session-management calls is [req.user]; the
    service reads [_id], [id] or [sub] from it, whichever is there. *)
Record UserRef := {
  ref__id : option string;
  ref_id : option string;
  ref_sub : option string;
}.

(** [user._id ? user._id.toString() : user.id || user.sub]. *)
Definition userIdOf (user : UserRef) : option string :=
  if truthy (ref__id user) then ref__id user
  else if truthy (ref_id user) then ref_id user
  else ref_sub user.

(** [findById] of an id that may be [undefined]. *)
Definition findByRef (userId : option string) : M (option User.t) :=
  match userId with
  | Some id => findById id
  | None => ret None
  end.

(** [getUserSessions(user)]. *)
Definition getUserSessions (user : UserRef) : M (list SessionView.t) :=
  try_catch
    (let* found := findByRef (userIdOf user) in
     match found with
     | None => throw (NotFoundException "User not found")
     | Some userDoc =>
         let* env := ask in
         let activeSessions :=
           filter (λ session, UserSession.isActive session = true
                              ∧ now env < UserSession.expiresAt session)
                  (User.sessions userDoc) in
         let* userDoc :=
           if bool_decide (length activeSessions ≠ length (User.sessions userDoc))
           then save (User.set_sessions activeSessions userDoc) ;;;
                ret (User.set_sessions activeSessions userDoc)
           else ret userDoc in
         ret (hide_refreshToken <$> User.sessions userDoc)
     end)
    (λ error, throw error).

(** [terminateSession(user, sessionId)]; the answer is its [message]. *)
Definition terminateSession (user : UserRef) (sessionId : string) : M string :=
  try_catch
    (let* found := findByRef (userIdOf user) in
     match found with
     | None => throw (NotFoundException "User not found")
     | Some userDoc =>
         let originalSessionCount := length (User.sessions userDoc) in
         let remaining :=
           filter (λ s, UserSession.id s ≠ sessionId) (User.sessions userDoc) in
         if bool_decide (length remaining = originalSessionCount)
         then throw (NotFoundException "Session not found")
         else
           save (User.set_sessions remaining userDoc) ;;;
           ret "Session terminated successfully"
     end)
    (λ error, throw error).

(** [terminateAllSessions(user, currentSessionId)]. *)
Definition terminateAllSessions (user : UserRef) (currentSessionId : option string)
    : M string :=
  try_catch
    (let* found := findByRef (userIdOf user) in
     match found with
     | None => throw (NotFoundException "User not found")
     | Some userDoc =>
         let remaining :=
           if truthy currentSessionId
           then filter (λ s, UserSession.id s = default "" currentSessionId)
                       (User.sessions userDoc)
           else [] in
         save (User.set_sessions remaining userDoc) ;;;
         ret "All other sessions terminated successfully"
     end)
    (λ error, throw error).

(** ** JwtStrategy and JwtAuthGuard *)

(** The object [JwtStrategy.validate] returns, on the fields kept in [User]. *)
Record NormalizedUser := {
  nu_userId : string;
  nu__id : string;
  nu_id : string;
  nu_sub : string;
  nu_sessionId : string;
  nu_email : option string;
  nu_phoneNumber : string;
  nu_role : UserRole;
  nu_isActive : bool;
}.

(** [JwtStrategy.validate(payload)]: whatever [validateUser] throws comes out
    as [UnauthorizedException('Invalid token')]. *)
Definition validate (payload : JwtPayload.t) : M NormalizedUser :=
  try_catch
    (let* user := validateUser payload in
     ret {| nu_userId := User._id user;
            nu__id := User._id user;
            nu_id := User._id user;
            nu_sub := JwtPayload.sub payload;
            nu_sessionId := JwtPayload.sessionId payload;
            nu_email := User.email user;
            nu_phoneNumber := User.phoneNumber user;
            nu_role := User.role user;
            nu_isActive := User.isActive user |})
    (λ error, throw (UnauthorizedException "Invalid token")).

(** The passport-jwt strategy configured in the constructor of [JwtStrategy]
    (bearer token of the Authorization header, [JWT_SECRET], expiry
    checked), as @nestjs/passport drives it: the pair [(err, user)] handed
    to [handleRequest].  A missing or rejected token is a failure without
    error, [(null, false)]; an exception of [validate] is the error. *)
Definition authenticate (bearer : option Jwt) : M (option Exception * option NormalizedUser) :=
  let* env := ask in
  match bearer with
  | None => ret (None, None)
  | Some token =>
      match jwt_verify (JWT_SECRET (cfg env)) (now env) token with
      | None => ret (None, None)
      | Some payload =>
          try_catch
            (let* user := validate payload in ret (None, Some user))
            (λ error, ret (Some error, None))
      end
  end.

(** [JwtAuthGuard.handleRequest(err, user, info, context)]; [isPublic] is
    the metadata the reflector finds on the handler or its class. *)
Definition handleRequest (isPublic : bool) (err : option Exception)
    (user : option NormalizedUser) : Result (option NormalizedUser) :=
  if isPublic then
    if bool_decide (err ≠ None) || bool_decide (user = None)
    then Ok None
    else Ok user
  else
    if bool_decide (err ≠ None) || bool_decide (user = None)
    then Throw (default (UnauthorizedException "Access token required") err)
    else Ok user.

(** [JwtAuthGuard.canActivate(context)]: both branches run the inherited
    [canActivate], which authenticates, passes the outcome through
    [handleRequest], stores the result in [request.user] and lets the
    request through; an exception of [handleRequest] ends the request.
    The value returned here is [request.user]. *)
Definition canActivate (isPublic : bool) (bearer : option Jwt) : M (option NormalizedUser) :=
  let* (err, user) := authenticate bearer in
  match handleRequest isPublic err user with
  | Ok attached => ret attached
  | Throw e => throw e
  end.

(** ** NotificationsGateway (src/notifications/notifications.gateway.ts) *)

(** The two private maps: [userSockets : Map<string, Set<string>>] and
    [socketToUser : Map<string, string>].  Only membership, size and the
    key set are observed below, never the insertion order. *)
Module Gateway.
Record t := mk {
  userSockets : gmap string (gset string);
  socketToUser : gmap string string;
}.
Definition empty : t := mk ∅ ∅.
End Gateway.

(** The three places [handleConnection] looks for the token:
    [handshake.auth.token], the authorization header once ['Bearer '] is
    removed, and [handshake.query.token]. *)
Record Handshake := {
  auth_token : option Jwt;
  authorization : option Jwt;
  query_token : option Jwt;
}.

(** A token string is falsy when it is missing or empty. *)
Definition present (token : option Jwt) : bool :=
  match token with
  | None => false
  | Some (Garbage raw) => negb (String.eqb raw "")
  | Some (Signed _ _ _ _) => true
  end.

(** [auth?.token || headers?.authorization?.replace('Bearer ', '') || query?.token]. *)
Definition handshake_token (h : Handshake) : option Jwt :=
  if present (auth_token h) then auth_token h
  else if present (authorization h) then authorization h
  else query_token h.

(** What the gateway sends back to the connecting client. *)
Inductive Emitted :=
| emit_error (message : string)
| emit_connected (userId socketId : string) (activeConnections : nat)
| disconnect.

(** Lines 100-105 of [handleConnection]: the socket joins the user's set,
    created when absent, and the reverse entry is written. *)
Definition track (userId clientId : string) (gw : Gateway.t) : Gateway.t :=
  let sockets := default ∅ (Gateway.userSockets gw !! userId) in
  Gateway.mk (<[userId := sockets ∪ {[clientId]}]> (Gateway.userSockets gw))
             (<[clientId := userId]> (Gateway.socketToUser gw)).

(** [getUserConnectionCount(userId)]: [this.userSockets.get(userId)?.size || 0]. *)
Definition getUserConnectionCount (gw : Gateway.t) (userId : string) : nat :=
  match Gateway.userSockets gw !! userId with
  | Some socketSet => size socketSet
  | None => 0%nat
  end.

(** [handleConnection(client)] for the socket [clientId], at instant [now].
    Joining the rooms [user:<id>] and [role:<role>] is left to socket.io. *)
Definition handleConnection (config : Config) (now : Z) (clientId : string)
    (h : Handshake) (gw : Gateway.t) : list Emitted * Gateway.t :=
  if negb (present (handshake_token h)) then
    ([emit_error "Authentication required"; disconnect], gw)
  else
    match jwt_verify (JWT_SECRET config) now (default (Garbage "") (handshake_token h)) with
    | None => ([emit_error "Invalid or expired token"; disconnect], gw)
    | Some payload =>
        let userId := JwtPayload.sub payload in
        if negb (truthy (Some userId)) then
          ([emit_error "Invalid token payload"; disconnect], gw)
        else
          let gw' := track userId clientId gw in
          ([emit_connected userId clientId (getUserConnectionCount gw' userId)], gw')
    end.

(** [handleDisconnect(client)]. *)
Definition handleDisconnect (clientId : string) (gw : Gateway.t) : Gateway.t :=
  let userId := Gateway.socketToUser gw !! clientId in
  if truthy userId then
    let userId := default "" userId in
    let userSockets' :=
      match Gateway.userSockets gw !! userId with
      | Some userSocketSet =>
          let userSocketSet := userSocketSet ∖ {[clientId]} in
          if bool_decide (size userSocketSet = 0%nat)
          then delete userId (Gateway.userSockets gw)
          else <[userId := userSocketSet]> (Gateway.userSockets gw)
      | None => Gateway.userSockets gw
      end in
    Gateway.mk userSockets' (delete clientId (Gateway.socketToUser gw))
  else gw.

(** [isUserConnected(userId)]. *)
Definition isUserConnected (gw : Gateway.t) (userId : string) : bool :=
  match Gateway.userSockets gw !! userId with
  | Some socketSet => bool_decide (0 < size socketSet)%nat
  | None => false
  end.

(** [getConnectedUserIds()]: the keys of [userSockets]. *)
Definition getConnectedUserIds (gw : Gateway.t) : list string :=
  (map_to_list (Gateway.userSockets gw)).*1.

(** [getTotalConnectedUsers()] and [getTotalConnections()]. *)
Definition getTotalConnectedUsers (gw : Gateway.t) : nat :=
  size (Gateway.userSockets gw).
Definition getTotalConnections (gw : Gateway.t) : nat :=
  map_fold (λ _ sockets total, (total + size sockets)%nat) 0%nat (Gateway.userSockets gw).

(** The life of the gateway: sockets connect and disconnect. *)
Inductive SocketEvent :=
| Connection (now : Z) (clientId : string) (h : Handshake)
| Disconnection (clientId : string).

Definition gateway_step (config : Config) (gw : Gateway.t) (ev : SocketEvent) : Gateway.t :=
  match ev with
  | Connection now clientId h => (handleConnection config now clientId h gw).2
  | Disconnection clientId => handleDisconnect clientId gw
  end.

Definition gateway_run (config : Config) (evs : list SocketEvent) (gw : Gateway.t) : Gateway.t :=
  foldl (gateway_step config) gw evs.

(** The identity a handshake authenticates as, if [handleConnection]
    accepts it. *)
Definition authenticated_as (config : Config) (now : Z) (h : Handshake) : option string :=
  if negb (present (handshake_token h)) then None
  else
    match jwt_verify (JWT_SECRET config) now (default (Garbage "") (handshake_token h)) with
    | None => None
    | Some payload =>
        if truthy (Some (JwtPayload.sub payload)) then Some (JwtPayload.sub payload) else None
    end.

(** ** Vocabulary of the properties *)

(** A list in decreasing order of [key], ties allowed. *)
Definition descending {A : Type} (key : A → Z) : list A → Prop :=
  StronglySorted (λ a b, key b ≤ key a).

(** The ways authentication fails: no bearer token, a token that does not
    verify, or a payload that [validateUser] rejects (user missing or
    inactive, session missing, inactive or expired). *)
Definition authentication_fails (bearer : option Jwt) (env : Env) (st : Store) : Prop :=
  bearer = None
  ∨ (∃ token, bearer = Some token
              ∧ jwt_verify (JWT_SECRET (cfg env)) (now env) token = None)
  ∨ (∃ token payload e,
        bearer = Some token
        ∧ jwt_verify (JWT_SECRET (cfg env)) (now env) token = Some payload
        ∧ (validateUser payload env st).1 = Throw e).

(** Every socket in the set of an identity has a reverse entry for that
    identity, and every reverse entry names an identity whose set holds the
    socket.  The reverse map being a map, a socket has at most one entry. *)
Definition registry_consistent (gw : Gateway.t) : Prop :=
  (∀ userId (sockets : gset string) clientId,
      Gateway.userSockets gw !! userId = Some sockets →
      clientId ∈ sockets →
      Gateway.socketToUser gw !! clientId = Some userId)
  ∧ (∀ clientId userId,
        Gateway.socketToUser gw !! clientId = Some userId →
        ∃ sockets : gset string,
          Gateway.userSockets gw !! userId = Some sockets ∧ clientId ∈ sockets).

(** The sockets that connect are not, at that moment, registered for
    another identity: socket.io gives every open connection an id of its
    own. *)
Fixpoint connections_fresh (config : Config) (gw : Gateway.t) (evs : list SocketEvent)
    : Prop :=
  match evs with
  | [] => True
  | ev :: evs' =>
      match ev with
      | Connection now clientId h =>
          ∀ userId, authenticated_as config now h = Some userId →
                    Gateway.socketToUser gw !! clientId = None
                    ∨ Gateway.socketToUser gw !! clientId = Some userId
      | Disconnection _ => True
      end
      ∧ connections_fresh config (gateway_step config gw ev) evs'
  end.

(** The configured refresh lifetime, as [generateTokens] computes it. *)
Definition expirationMs (env : Env) : Z :=
  parseTokenExpiration (default "7d" (JWT_REFRESH_EXPIRATION (cfg env))).

(** A time value that makes a [Date]. *)
Definition valid_date (value : Z) : Prop := - max_time ≤ value ≤ max_time.

(** The JWT library reads both configured lifetimes as timespans. *)
Definition signs (config : Config) : Prop :=
  is_Some (accessLifetime config) ∧ is_Some (refreshLifetime config).

#[global] Instance signs_dec (config : Config) : Decision (signs config).
Proof. unfold signs. apply _. Defined.

(** The payload signed into both tokens of a call for session [sessionId]. *)
Definition payload_for (user : User.t) (sessionId : string) : JwtPayload.t :=
  JwtPayload.mk (User._id user) (User.phoneNumber user) (User.email user)
    (User.role user) sessionId.

(** The two tokens of a call at [now env], signed for [access] and
    [refresh] seconds. *)
Definition tokens_for (env : Env) (access refresh : Z) (user : User.t) (sessionId : string)
    : Tokens.t :=
  Tokens.mk
    (Signed (JWT_SECRET (cfg env)) (payload_for user sessionId)
       (now env `div` 1000) (now env `div` 1000 + access))
    (Signed (JWT_REFRESH_SECRET (cfg env)) (payload_for user sessionId)
       (now env `div` 1000) (now env `div` 1000 + refresh)).

(** The [newSession] literal of [generateTokens], around the refresh token
    of the call. *)
Definition newSession (env : Env) (req : option Request) (refreshToken : Jwt)
    : UserSession.t :=
  UserSession.mk (randomUUID env) refreshToken
    (deviceName (request_info req)) (clientIp (request_info req))
    (userAgentHeader (request_info req)) (Some (ipLocation (request_info req)))
    true (now env) (now env) (now env + expirationMs env).

(** The purge of the expired and the cap of [generateTokens], on the list
    the new session was pushed on. *)
Definition purged_and_capped (env : Env) (pushed : list UserSession.t)
    : list UserSession.t :=
  let live := filter (λ session, now env < UserSession.expiresAt session) pushed in
  if bool_decide (10 < length live)%nat
  then take 10 (Array_sort by_lastActive_desc live)
  else live.

(** The session list a login leaves when the deadline of the new session
    is a valid date. *)
Definition sessions_after_login (env : Env) (user : User.t) (req : option Request)
    (refreshToken : Jwt) : list UserSession.t :=
  purged_and_capped env (User.sessions user ++ [newSession env req refreshToken]).

(** The unexpired sessions of [user] whose [lastActive] is not before the
    instant of the call. *)
Definition not_older (env : Env) (user : User.t) : list UserSession.t :=
  filter (λ s, now env ≤ UserSession.lastActive s)
    (filter (λ s, now env < UserSession.expiresAt s) (User.sessions user)).

(** What [refreshToken] makes of the session it located before it asks
    for new tokens: activity and request data. *)
Definition touched (env : Env) (req : option Request) (s : UserSession.t)
    : UserSession.t :=
  let s := UserSession.set_lastActive (now env) s in
  match req with
  | Some r =>
      UserSession.set_userAgent (userAgentHeader r)
        (UserSession.set_ipAddress (clientIp r) s)
  | None => s
  end.

(** What [generateTokens] then makes of the session of that id: the new
    refresh token and the activity once more. *)
Definition rotated (env : Env) (refreshToken : Jwt) (s : UserSession.t) : UserSession.t :=
  UserSession.set_lastActive (now env) (UserSession.set_refreshToken refreshToken s).

(** Both, on the one session. *)
Definition refreshed (env : Env) (req : option Request) (refreshToken : Jwt)
    (s : UserSession.t) : UserSession.t :=
  rotated env refreshToken (touched env req s).

(** The two ways [refreshToken] locates a session: under the [sessionId] of
    the payload, or, when no active session has that id, under the value of
    the token. *)
Definition located_by_id (payload : JwtPayload.t) (sessions : list UserSession.t)
    (i : nat) (session : UserSession.t) : Prop :=
  JwtPayload.sessionId payload ≠ ""
  ∧ list_find (λ s, UserSession.id s = JwtPayload.sessionId payload
                    ∧ UserSession.isActive s = true) sessions = Some (i, session).

Definition located_by_token (payload : JwtPayload.t) (token : Jwt)
    (sessions : list UserSession.t) (i : nat) (session : UserSession.t) : Prop :=
  (JwtPayload.sessionId payload = ""
   ∨ Forall (λ s, ¬ (UserSession.id s = JwtPayload.sessionId payload
                     ∧ UserSession.isActive s = true)) sessions)
  ∧ list_find (λ s, UserSession.refreshToken s = token
                    ∧ UserSession.isActive s = true) sessions = Some (i, session).

(** ** A scenario

    One configuration, two users and the stores and tokens that a few calls
    of the service produce; the properties below are instantiated on it. *)
Module Scenario.
(** What the JWT library reads in the lifetimes configured below; ["abc"]
    is no timespan. *)
Definition library_timespan (expiresIn : string) : option Z :=
  if String.eqb expiresIn "15m" then Some 900
  else if String.eqb expiresIn "7d" then Some 604800
  else if String.eqb expiresIn "0s" then Some 0
  else if String.eqb expiresIn "100000000d" then Some 8640000000000
  else None.

Definition config : Config :=
  {| JWT_SECRET := "access-secret";
     JWT_REFRESH_SECRET := "refresh-secret";
     JWT_EXPIRATION := None;
     JWT_REFRESH_EXPIRATION := Some "7d";
     timespan := library_timespan |}.


(** With sessions that last a hundred million days. *)
Definition config_100000000d : Config :=
  {| JWT_SECRET := "access-secret";
     JWT_REFRESH_SECRET := "refresh-secret";
     JWT_EXPIRATION := None;
     JWT_REFRESH_EXPIRATION := Some "100000000d";
     timespan := library_timespan |}.

Definition day : Z := 86400000.
Definition t0 : Z := 1700000000000.

Definition at_ (t : Z) (uuid : string) : Env :=
  {| cfg := config; now := t; randomUUID := uuid |}.

Definition alice : User.t :=
  User.mk "u1" "+237650000001" (Some "alice@example.com") REGISTERED_USER true [].
Definition alice_ref : UserRef :=
  {| ref__id := Some "u1"; ref_id := Some "u1"; ref_sub := Some "u1" |}.
Definition store0 : Store := {[ "u1" := alice ]}.

(** Alice logs in at [t0]: session [s1]. *)
Definition store1 : Store := (login alice None (at_ t0 "s1") store0).2.
Definition alice1 : User.t := default alice (document store1 "u1").
Definition access0 : Jwt :=
  Tokens.accessToken (tokens_for (at_ t0 "s1") 900 604800 alice "s1").
Definition refresh0 : Jwt :=
  Tokens.refreshToken (tokens_for (at_ t0 "s1") 900 604800 alice "s1").
Definition payload0 : JwtPayload.t := payload_for alice "s1".
Definition session1 : UserSession.t := newSession (at_ t0 "s1") None refresh0.

(** She refreshes a day later, and once more the day after. *)
Definition refresh1 : Jwt :=
  Tokens.refreshToken (tokens_for (at_ (t0 + day) "unused") 900 604800 alice "s1").
Definition store2 : Store :=
  (refreshToken refresh0 None (at_ (t0 + day) "unused") store1).2.

(** She refreshes six days later: the new refresh token outlives the
    deadline of the session, which a refresh does not move. *)
Definition store6 : Store :=
  (refreshToken refresh0 None (at_ (t0 + 6 * day) "unused") store1).2.
Definition refresh6 : Jwt :=
  Tokens.refreshToken (tokens_for (at_ (t0 + 6 * day) "unused") 900 604800 alice "s1").
Definition alice6 : User.t := default alice (document store6 "u1").
Definition session6 : UserSession.t := default session1 (User.sessions alice6 !! 0%nat).

(** A user with ten unexpired sessions, last active at [t0 + 1], ...,
    [t0 + 10], and one with ten sessions all last active at [t0]. *)
Definition session_at (n : Z) (lastActive : Z) : UserSession.t :=
  UserSession.mk (String (ascii_of_nat (Z.to_nat (96 + n))) "") (Garbage "legacy")
    "Chrome on Linux" "10.0.0.1" "Mozilla/5.0" (Some "Unknown Location") true
    lastActive t0 (t0 + 7 * day).
Definition bob : User.t :=
  User.mk "u2" "+237650000002" None REGISTERED_USER true
    ((λ n, session_at n (t0 + n)) <$> [1; 2; 3; 4; 5; 6; 7; 8; 9; 10]).
Definition carol : User.t :=
  User.mk "u3" "+237650000003" None REGISTERED_USER true
    ((λ n, session_at n t0) <$> [1; 2; 3; 4; 5; 6; 7; 8; 9; 10]).

(** Handshakes of sockets that present an access token. *)
Definition handshake_of (token : Jwt) : Handshake :=
  {| auth_token := Some token; authorization := None; query_token := None |}.
Definition access_u2 : Jwt :=
  Tokens.accessToken (tokens_for (at_ t0 "s2") 900 604800 bob "s2").
End Scenario.

(** ** The rest of the service, its controller and the gateway *)

(** [cleanupExpiredSessions()]: one [updateMany] over the collection; the
    documents that hold a session with [expiresAt < now] have the sessions
    with [expiresAt < now] pulled.  The [catch] block only logs. *)
Definition cleanupExpiredSessions : M unit :=
  try_catch
    (λ env st,
       (Ok tt,
        (λ doc,
           if bool_decide (Exists (λ s, UserSession.expiresAt s < now env)
                                  (User.sessions doc))
           then User.set_sessions
                  (filter (λ s, ¬ UserSession.expiresAt s < now env) (User.sessions doc))
                  doc
           else doc) <$> st))
    (λ error, ret tt).

(** [SmsService], the second class of src/auth/auth.service.ts.  A string
    is its sequence of bytes; [\d] is an ASCII digit. *)
Module SmsService.
(** [isValidPhoneNumber(phoneNumber)]: [/^\+[1-9]\d{1,14}$/]. *)
Definition isValidPhoneNumber (phoneNumber : string) : bool :=
  match list_ascii_of_string phoneNumber with
  | plus :: first :: rest =>
      bool_decide (plus = "+"%char)
      && is_digit first && negb (bool_decide (first = "0"%char))
      && forallb is_digit rest
      && bool_decide (1 ≤ length rest ≤ 14)%nat
  | _ => false
  end.

(** [formatPhoneNumber(phoneNumber)]: [phoneNumber.replace(/[^\d+]/g, '')]. *)
Definition formatPhoneNumber (phoneNumber : string) : string :=
  string_of_list_ascii
    (filter (λ c, is_digit c = true ∨ c = "+"%char) (list_ascii_of_string phoneNumber)).
End SmsService.

(** [req.user] in the controller: the object [JwtStrategy.validate]
    returned, which has an [_id], or, as the parameter types allow, a bare
    token payload, which has none.  Neither carries [sessions]. *)
Inductive RequestUser :=
| StrategyUser (u : NormalizedUser)
| PayloadUser (p : JwtPayload.t).

Definition userRefOf (requestUser : RequestUser) : UserRef :=
  match requestUser with
  | StrategyUser u =>
      {| ref__id := Some (nu__id u); ref_id := Some (nu_id u); ref_sub := Some (nu_sub u) |}
  | PayloadUser p =>
      {| ref__id := None; ref_id := None; ref_sub := Some (JwtPayload.sub p) |}
  end.

(** [AuthController] (src/auth/auth.controller.ts), the session endpoints
    behind [JwtAuthGuard]. *)
Module AuthController.
(** [logout(req)]: [sessionId] is only set when [req.user] has no [_id]. *)
Definition logout (requestUser : RequestUser) : M unit :=
  match requestUser with
  | StrategyUser u => logout (nu__id u) None
  | PayloadUser p => logout (JwtPayload.sub p) (Some (JwtPayload.sessionId p))
  end.

(** [terminateAllSessions(req)]: [currentSessionId] is
    [req.user.sessions?.[0]?.id]. *)
Definition terminateAllSessions (requestUser : RequestUser) : M string :=
  let currentSessionId : option string := None in
  terminateAllSessions (userRefOf requestUser) currentSessionId.

(** [terminateSession(sessionId, req)]. *)
Definition terminateSession (sessionId : string) (requestUser : RequestUser) : M string :=
  terminateSession (userRefOf requestUser) sessionId.
End AuthController.

(** What the gateway sends through the server: the room and the event. *)
Inductive ServerEmit :=
| emit_to (room event : string).

(** [sendNotificationToUser(userId, notification)]. *)
Definition sendNotificationToUser (gw : Gateway.t) (userId : string) : list ServerEmit :=
  let room := String.append "user:" userId in
  let connectionCount := getUserConnectionCount gw userId in
  if bool_decide (0 < connectionCount)%nat then [emit_to room "notification"] else [].

(** [sendUnreadCountUpdate(userId, count)]. *)
Definition sendUnreadCountUpdate (gw : Gateway.t) (userId : string) : list ServerEmit :=
  let room := String.append "user:" userId in
  if isUserConnected gw userId then [emit_to room "unreadCount"] else [].

(** ** Vocabulary of the further properties *)

(** The value of a sequence of decimal digits. *)
Definition decimal (digits : list ascii) : Z :=
  foldl (λ acc c, 10 * acc + digit_value c) 0 digits.

(** The milliseconds [parseTokenExpiration] counts for a unit. *)
Definition unit_ms (unit : ascii) : Z :=
  if bool_decide (unit = "s"%char) then 1000
  else if bool_decide (unit = "m"%char) then 60 * 1000
  else if bool_decide (unit = "h"%char) then 60 * 60 * 1000
  else 24 * 60 * 60 * 1000.

(** Strings of the form digits, then one of [s], [m], [h], [d]. *)
Definition well_formed_expiration (expiration : string) : Prop :=
  ∃ digits unit,
    expiration = string_of_list_ascii (digits ++ [unit])
    ∧ digits ≠ []
    ∧ Forall (λ c, is_digit c = true) digits
    ∧ is_unit unit = true.

(** Every stored session has an id, as the schema requires
    ([id: { type: String, required: true }]). *)
Definition sessions_have_ids (st : Store) : Prop :=
  map_Forall (λ _ doc, Forall (λ s, UserSession.id s ≠ "") (User.sessions doc)) st.

(** No identity is filed with an empty set of sockets. *)
Definition no_empty_sets (gw : Gateway.t) : Prop :=
  ∀ userId (sockets : gset string),
    Gateway.userSockets gw !! userId = Some sockets → sockets ≠ ∅.

(** ** A second device *)

Module Devices.
Import Scenario.

(** Alice logs in from a second device a second after the first: session
    [s2] beside [s1]. *)
Definition store12 : Store := (login alice1 None (at_ (t0 + 1000) "s2") store1).2.
Definition alice12 : User.t := default alice (document store12 "u1").
Definition access2 : Jwt :=
  Tokens.accessToken (tokens_for (at_ (t0 + 1000) "s2") 900 604800 alice "s2").
Definition refresh2 : Jwt :=
  Tokens.refreshToken (tokens_for (at_ (t0 + 1000) "s2") 900 604800 alice "s2").
Definition payload2 : JwtPayload.t := payload_for alice "s2".

(** Bob is filed beside her. *)
Definition store12b : Store := <["u2" := bob]> store12.

(** What the guard attaches to a request that carries [access0]. *)
Definition attached0 : NormalizedUser :=
  {| nu_userId := "u1";
     nu__id := "u1";
     nu_id := "u1";
     nu_sub := "u1";
     nu_sessionId := "s1";
     nu_email := Some "alice@example.com";
     nu_phoneNumber := "+237650000001";
     nu_role := REGISTERED_USER;
     nu_isActive := true |}.

(** A configuration whose [JWT_REFRESH_EXPIRATION] the JWT library does
    not read as a timespan; [parseTokenExpiration] makes seven days of it. *)
Definition config_abc : Config :=
  {| JWT_SECRET := "access-secret";
     JWT_REFRESH_SECRET := "refresh-secret";
     JWT_EXPIRATION := None;
     JWT_REFRESH_EXPIRATION := Some "abc";
     timespan := library_timespan |}.

(** Dave's one session dates from a release that signed no session id
    into its tokens: the refresh token stored with it carries none. *)
Definition dave0 : User.t :=
  User.mk "u4" "+237650000004" None REGISTERED_USER true [].
Definition legacy0 : Jwt :=
  Signed "refresh-secret" (payload_for dave0 "") (t0 `div` 1000) (t0 `div` 1000 + 604800).
Definition legacy_session : UserSession.t :=
  UserSession.mk "s0" legacy0 "Chrome on Linux" "10.0.0.4" "Mozilla/5.0"
    (Some "Unknown Location") true t0 t0 (t0 + 7 * day).
Definition dave : User.t := User.set_sessions [legacy_session] dave0.
Definition store_legacy : Store := {[ "u4" := dave ]}.

(** He refreshes a day later. *)
Definition legacy1 : Tokens.t :=
  tokens_for (at_ (t0 + day) "unused") 900 604800 dave "s0".
Definition store_legacy1 : Store :=
  (refreshToken legacy0 None (at_ (t0 + day) "unused") store_legacy).2.
Definition dave1 : User.t := default dave (document store_legacy1 "u4").

(** Two tabs of Alice. *)
Definition two_tabs : list SocketEvent :=
  [Connection (t0 + 1000) "tab-1" (handshake_of access0);
   Connection (t0 + 2000) "tab-2" (handshake_of access0)].
End Devices.

(** * Properties *)

(** ** [parseTokenExpiration] on a few strings *)

Example parseTokenExpiration_7d : parseTokenExpiration "7d" = 604800000.
Proof. reflexivity. Qed.
Example parseTokenExpiration_15m : parseTokenExpiration "15m" = 900000.
Proof. reflexivity. Qed.
Example parseTokenExpiration_week : parseTokenExpiration "1w" = 604800000.
Proof. reflexivity. Qed.
Example parseTokenExpiration_0s : parseTokenExpiration "0s" = 0.
Proof. reflexivity. Qed.

(** ** The store and the monad *)

Ltac unfold_service :=
  unfold login, refreshToken, validateUser, logout, getUserSessions, terminateSession,
    terminateAllSessions, validate, authenticate, canActivate, generateTokens,
    findByRef, findById, save, try_catch, bind, ret, throw, ask in *.

Lemma document_Some (st : Store) (id : string) (doc : User.t) :
  document st id = Some doc ↔ st !! id = Some doc ∧ User._id doc = id.
Proof.
  unfold document. destruct (st !! id) as [d|].
  - case_bool_decide as Hid; split.
    + by intros [= ->].
    + by intros [[= ->] _].
    + done.
    + by intros [[= ->] ?].
  - split; [done | by intros [? _]].
Qed.

Lemma document_save (st : Store) (doc : User.t) :
  document (<[User._id doc := doc]> st) (User._id doc) = Some doc.
Proof. apply document_Some. by rewrite lookup_insert_eq. Qed.

Lemma document_save_sessions (st : Store) (doc : User.t) (l : list UserSession.t) :
  document (<[User._id doc := User.set_sessions l doc]> st) (User._id doc)
  = Some (User.set_sessions l doc).
Proof. apply document_Some. by rewrite lookup_insert_eq. Qed.

Lemma document_save_ne (st : Store) (doc : User.t) (id : string) :
  id ≠ User._id doc → document (<[User._id doc := doc]> st) id = document st id.
Proof. intros Hne. unfold document. by rewrite lookup_insert_ne. Qed.

Lemma set_sessions_id (doc : User.t) :
  User.set_sessions (User.sessions doc) doc = doc.
Proof. by destruct doc. Qed.

Lemma save_same (st : Store) (doc : User.t) :
  document st (User._id doc) = Some doc → <[User._id doc := doc]> st = st.
Proof. intros [H _]%document_Some. by apply insert_id. Qed.

Lemma validateUser_reads (payload : JwtPayload.t) (env : Env) (st : Store) :
  (validateUser payload env st).2 = st.
Proof.
  unfold_service. destruct (document st _) as [doc|]; [|done].
  destruct (User.isActive doc); [|done]. simpl.
  destruct (list_find _ _) as [[i s]|]; [|done].
  by case_bool_decide.
Qed.

(** The store [logout] leaves behind. *)
Lemma logout_store (userId : string) (sessionId : option string) (env : Env) (st : Store) :
  (logout userId sessionId env st).2 =
  match document st userId with
  | Some doc =>
      <[userId :=
          User.set_sessions
            (if truthy sessionId
             then filter (λ s, UserSession.id s ≠ default "" sessionId) (User.sessions doc)
             else []) doc]> st
  | None => st
  end.
Proof.
  unfold_service. destruct (document st userId) as [doc|] eqn:Hdoc; [|done].
  apply document_Some in Hdoc as [_ <-]. by destruct doc.
Qed.

Lemma document_filed (st : Store) (id : string) (doc : User.t) (l : list UserSession.t) :
  document st id = Some doc →
  document (<[id := User.set_sessions l doc]> st) id = Some (User.set_sessions l doc).
Proof.
  intros [_ <-]%document_Some. apply document_Some.
  rewrite lookup_insert_eq. by destruct doc.
Qed.

(** A session whose id was filtered out is not found again. *)
Lemma list_find_removed (sid : string) (l : list UserSession.t) :
  list_find (λ s, UserSession.id s = sid ∧ UserSession.isActive s = true)
            (filter (λ s, UserSession.id s ≠ sid) l) = None.
Proof.
  apply list_find_None, Forall_forall. intros s [Hne _]%list_elem_of_filter [Heq _].
  done.
Qed.

(** ** C2: logout revokes the session under a still valid access token *)

(** C2.  Once [logout(userId, sessionId)] has run for the session an access
    token refers to, [validateUser] on the payload of that token throws
    [UnauthorizedException], at any later instant, although the token
    itself still verifies; on a protected route the guard ends the request
    with [UnauthorizedException('Invalid token')]. *)
Theorem validate_after_logout_unauthorized
    (env env' : Env) (st : Store) (payload : JwtPayload.t) (token : Jwt)
    (Hvalid : jwt_verify (JWT_SECRET (cfg env')) (now env') token = Some payload) :
  let st' := (logout (JwtPayload.sub payload) (Some (JwtPayload.sessionId payload)) env st).2 in
  (∃ message, validateUser payload env' st' = (Throw (UnauthorizedException message), st'))
  ∧ canActivate false (Some token) env' st'
    = (Throw (UnauthorizedException "Invalid token"), st').
Proof.
  intros st'.
  assert (Hv : ∃ message,
             validateUser payload env' st' = (Throw (UnauthorizedException message), st')).
  { subst st'. rewrite logout_store.
    unfold validateUser, findById, bind, throw, ask, ret.
    destruct (document st (JwtPayload.sub payload)) as [doc|] eqn:Hdoc.
    - rewrite document_filed by done.
      simpl. destruct (User.isActive doc); simpl; [|eauto].
      destruct (negb _); [|simpl; eauto].
      rewrite list_find_removed. eauto.
    - rewrite Hdoc. eauto. }
  split; [exact Hv|].
  destruct Hv as [message Hv].
  unfold canActivate, authenticate, validate, bind, ask, try_catch, ret, throw.
  rewrite Hvalid, Hv. reflexivity.
Qed.

(** The same after [terminateAllSessions] for every session but the one
    kept. *)
Lemma validateUser_after_terminateAllSessions
    (env env' : Env) (st : Store) (user : UserRef) (keep : string)
    (payload : JwtPayload.t) :
  userIdOf user = Some (JwtPayload.sub payload) →
  keep ≠ "" →
  JwtPayload.sessionId payload ≠ keep →
  ∃ message,
    (validateUser payload env' (terminateAllSessions user (Some keep) env st).2).1
    = Throw (UnauthorizedException message).
Proof.
  intros Hid Hkeep Hother. unfold_service. rewrite Hid.
  destruct (document st (JwtPayload.sub payload)) as [doc|] eqn:Hdoc; simpl.
  - pose proof Hdoc as [_ Hsub]%document_Some. rewrite Hsub.
    rewrite document_filed by done. simpl.
    destruct (User.isActive doc); simpl; [|eauto].
    apply String.eqb_neq in Hkeep as ->. simpl.
    assert (list_find (λ s, UserSession.id s = JwtPayload.sessionId payload
                            ∧ UserSession.isActive s = true)
                      (filter (λ s, UserSession.id s = keep) (User.sessions doc))
            = None) as ->; [|eauto].
    apply list_find_None, Forall_forall.
    intros s [Hs _]%list_elem_of_filter [Heq _]. congruence.
  - rewrite Hdoc. eauto.
Qed.

(** ** C10: terminating a session that does not exist *)

Lemma filter_Forall_id {A} (P : A → Prop) `{∀ x, Decision (P x)} (l : list A) :
  Forall P l → filter P l = l.
Proof.
  induction 1 as [|x l Hx _ IH]; [done|].
  by rewrite filter_cons_True, IH.
Qed.

Lemma filter_length_id {A} (P : A → Prop) `{∀ x, Decision (P x)} (l : list A) :
  length (filter P l) = length l → filter P l = l.
Proof.
  induction l as [|x l IH]; [done|].
  rewrite filter_cons. destruct (decide (P x)); simpl; intros Hlen.
  - f_equal. apply IH. lia.
  - pose proof (length_filter P l). lia.
Qed.

Lemma logout_succeeds (userId : string) (sessionId : option string) (env : Env) (st : Store) :
  (logout userId sessionId env st).1 = Ok tt.
Proof. unfold_service. by destruct (document st userId). Qed.

(** With a session id that no session carries, [logout] writes the list
    back as it was. *)
Lemma logout_unknown_session_noop (userId sessionId : string) (env : Env) (st : Store)
    (doc : User.t) :
  document st userId = Some doc →
  sessionId ≠ "" →
  Forall (λ s, UserSession.id s ≠ sessionId) (User.sessions doc) →
  logout userId (Some sessionId) env st = (Ok tt, st).
Proof.
  intros Hdoc Hsid Hnone. unfold_service. rewrite Hdoc. simpl.
  apply String.eqb_neq in Hsid as ->. simpl.
  rewrite filter_Forall_id by done. rewrite set_sessions_id.
  apply document_Some in Hdoc as [Hdoc <-]. by rewrite insert_id.
Qed.

(** C10.  [terminateSession] with a [sessionId] that none of the user's
    sessions carries throws [NotFoundException('Session not found')] and
    leaves the store, hence the session list, as it was; [logout] with the
    same arguments returns normally. *)
Theorem terminateSession_unknown_session_not_found
    (env : Env) (st : Store) (user : UserRef) (userId sessionId : string) (doc : User.t)
    (Hid : userIdOf user = Some userId)
    (Hdoc : document st userId = Some doc)
    (Hnone : Forall (λ s, UserSession.id s ≠ sessionId) (User.sessions doc)) :
  terminateSession user sessionId env st
    = (Throw (NotFoundException "Session not found"), st)
  ∧ (logout userId (Some sessionId) env st).1 = Ok tt.
Proof.
  split; [|apply logout_succeeds].
  unfold_service. rewrite Hid, Hdoc.
  rewrite filter_Forall_id by done.
  by rewrite bool_decide_eq_true_2.
Qed.

(** ** C9: session listings carry no refresh token *)

Lemma hide_refreshToken_None (l : list UserSession.t) :
  Forall (λ v, SessionView.refreshToken v = None) (hide_refreshToken <$> l).
Proof. apply Forall_fmap, Forall_forall. by intros. Qed.

(** The [toJSON] transform leaves no refresh token in the sessions either. *)
Lemma toJSON_hides_refreshToken (doc : User.t) :
  Forall (λ v, SessionView.refreshToken v = None) (UserJSON.sessions (toJSON doc)).
Proof. apply hide_refreshToken_None. Qed.

(** C9.  For a user that exists, [getUserSessions] returns the sessions
    that are active and not expired, in order, each with [refreshToken]
    undefined. *)
Theorem getUserSessions_hides_refreshToken
    (env : Env) (st : Store) (user : UserRef) (userId : string) (doc : User.t)
    (Hid : userIdOf user = Some userId)
    (Hdoc : document st userId = Some doc) :
  ∃ listing,
    (getUserSessions user env st).1 = Ok listing
    ∧ listing = hide_refreshToken <$>
                  filter (λ session, UserSession.isActive session = true
                                     ∧ now env < UserSession.expiresAt session)
                         (User.sessions doc)
    ∧ Forall (λ v, SessionView.refreshToken v = None) listing.
Proof.
  eexists. split; [|split; [reflexivity|apply hide_refreshToken_None]].
  unfold_service. rewrite Hid, Hdoc.
  case_bool_decide as Hlen; simpl; [done|].
  by rewrite (filter_length_id _ _ Hlen).
Qed.

(** ** C7: refreshing an expired session *)

(** C7.  When [refreshToken] locates a session whose [expiresAt] has
    passed, the call throws [UnauthorizedException] and the store it leaves
    behind holds the user's sessions without the expired one. *)
Theorem refreshToken_expired_session_purged
    (env : Env) (st : Store) (token : Jwt) (req : option Request)
    (payload : JwtPayload.t) (doc : User.t) (i : nat) (session : UserSession.t)
    (Hverify : jwt_verify (JWT_REFRESH_SECRET (cfg env)) (now env) token = Some payload)
    (Hdoc : document st (JwtPayload.sub payload) = Some doc)
    (Hactive : User.isActive doc = true)
    (Hlocated : locate_session payload token (User.sessions doc) = Some (i, session))
    (Hexpired : UserSession.expiresAt session < now env) :
  (refreshToken token req env st).1 = Throw (UnauthorizedException "Invalid refresh token")
  ∧ ∃ doc',
      document (refreshToken token req env st).2 (JwtPayload.sub payload) = Some doc'
      ∧ User.sessions doc'
        = filter (λ s, UserSession.id s ≠ UserSession.id session) (User.sessions doc)
      ∧ session ∉ User.sessions doc'.
Proof.
  unfold refreshToken, try_catch, bind, ask, findById, throw, save.
  rewrite Hverify, Hdoc, Hactive. simpl. rewrite Hlocated.
  rewrite bool_decide_eq_true_2 by done. simpl. split; [done|].
  pose proof Hdoc as [_ Hid]%document_Some. rewrite Hid.
  eexists. split; [|split].
  - by apply document_filed.
  - done.
  - simpl. by intros [? _]%list_elem_of_filter.
Qed.

(** ** C8: the guard on public and on protected routes *)

Lemma validate_rejects (payload : JwtPayload.t) (env : Env) (st : Store) (e : Exception) :
  (validateUser payload env st).1 = Throw e →
  validate payload env st = (Throw (UnauthorizedException "Invalid token"), st).
Proof.
  intros Hthrow. pose proof (validateUser_reads payload env st) as Hst.
  unfold validate, try_catch, bind, ret, throw.
  destruct (validateUser payload env st) as [[doc|e'] st']; simpl in *; by subst.
Qed.

Lemma authenticate_failure (bearer : option Jwt) (env : Env) (st : Store) :
  authentication_fails bearer env st →
  ∃ err, authenticate bearer env st = (Ok (err, None), st).
Proof.
  intros [->|[(token & -> & Hverify)|(token & payload & e & -> & Hverify & Hthrow)]];
    unfold authenticate, bind, ask, ret, try_catch.
  - by exists None.
  - rewrite Hverify. by exists None.
  - rewrite Hverify, (validate_rejects _ _ _ _ Hthrow). eauto.
Qed.

(** Whatever error reaches [handleRequest] is the one [validate] threw. *)
Lemma authenticate_error (bearer : option Jwt) (env : Env) (st : Store)
    (e : Exception) (user : option NormalizedUser) :
  (authenticate bearer env st).1 = Ok (Some e, user) →
  e = UnauthorizedException "Invalid token".
Proof.
  unfold authenticate, validate, bind, ask, ret, try_catch, throw.
  destruct bearer as [token|]; [|done].
  destruct (jwt_verify _ _ _) as [payload|]; [|done].
  destruct (validateUser payload env st) as [[doc|e'] st']; simpl; by intros [= <-].
Qed.

(** C8.  When authentication fails, for want of a token, for a token that
    does not verify or for a session that is not valid, the guard of a
    public route attaches [null] as the user and lets the request through,
    and the guard of a protected route throws [UnauthorizedException]. *)
Theorem guard_on_authentication_failure
    (bearer : option Jwt) (env : Env) (st : Store)
    (Hfails : authentication_fails bearer env st) :
  canActivate true bearer env st = (Ok None, st)
  ∧ ∃ message,
      canActivate false bearer env st = (Throw (UnauthorizedException message), st).
Proof.
  destruct (authenticate_failure _ _ _ Hfails) as [err Hauth].
  pose proof (authenticate_error bearer env st) as Herr.
  unfold canActivate, bind, ret, throw. rewrite Hauth in *. simpl in *. split.
  - by rewrite orb_true_r.
  - rewrite orb_true_r. destruct err as [e|]; simpl; [|eauto].
    rewrite (Herr e None eq_refl). eauto.
Qed.

(** With a valid token and a live session both guards attach the user. *)
Lemma guard_on_authentication_success
    (isPublic : bool) (token : Jwt) (payload : JwtPayload.t) (doc : User.t)
    (env : Env) (st : Store) :
  jwt_verify (JWT_SECRET (cfg env)) (now env) token = Some payload →
  (validateUser payload env st).1 = Ok doc →
  ∃ attached, canActivate isPublic (Some token) env st = (Ok (Some attached), st)
              ∧ nu_userId attached = User._id doc
              ∧ nu_sessionId attached = JwtPayload.sessionId payload.
Proof.
  intros Hverify Hok. pose proof (validateUser_reads payload env st) as Hst.
  unfold canActivate, authenticate, validate, bind, ask, ret, try_catch, throw.
  rewrite Hverify.
  destruct (validateUser payload env st) as [[doc'|e] st']; simpl in *; [|done].
  simplify_eq. destruct isPublic; simpl; eauto.
Qed.

(** ** The presence registry *)

Lemma authenticated_as_truthy (config : Config) (now : Z) (h : Handshake) (userId : string) :
  authenticated_as config now h = Some userId → truthy (Some userId) = true.
Proof.
  unfold authenticated_as. destruct (negb (present _)); [done|].
  destruct (jwt_verify _ _ _) as [payload|]; [|done].
  destruct (truthy (Some (JwtPayload.sub payload))) eqn:Ht; [|done].
  by intros [= <-].
Qed.

Lemma handleConnection_accepted (config : Config) (now : Z) (clientId : string)
    (h : Handshake) (gw : Gateway.t) (userId : string) :
  authenticated_as config now h = Some userId →
  handleConnection config now clientId h gw
  = ([emit_connected userId clientId
        (getUserConnectionCount (track userId clientId gw) userId)],
     track userId clientId gw).
Proof.
  unfold authenticated_as, handleConnection. destruct (negb (present _)); [done|].
  destruct (jwt_verify _ _ _) as [payload|]; [|done].
  destruct (truthy (Some (JwtPayload.sub payload))); [|done].
  by intros [= <-].
Qed.

Lemma handleConnection_rejected (config : Config) (now : Z) (clientId : string)
    (h : Handshake) (gw : Gateway.t) :
  authenticated_as config now h = None →
  (handleConnection config now clientId h gw).2 = gw.
Proof.
  unfold authenticated_as, handleConnection. destruct (negb (present _)); [done|].
  destruct (jwt_verify _ _ _) as [payload|]; [|done].
  by destruct (truthy (Some (JwtPayload.sub payload))).
Qed.

Lemma getConnectedUserIds_elem (gw : Gateway.t) (userId : string) :
  userId ∈ getConnectedUserIds gw ↔ is_Some (Gateway.userSockets gw !! userId).
Proof.
  unfold getConnectedUserIds. rewrite list_elem_of_fmap. split.
  - intros [[k sockets] [-> Hin%elem_of_map_to_list]]. by eexists.
  - intros [sockets Hsockets]. exists (userId, sockets).
    split; [done|]. by apply elem_of_map_to_list.
Qed.

(** The registry after a known socket leaves. *)
Lemma handleDisconnect_known (clientId userId : string) (gw : Gateway.t)
    (sockets : gset string) :
  truthy (Some userId) = true →
  Gateway.socketToUser gw !! clientId = Some userId →
  Gateway.userSockets gw !! userId = Some sockets →
  handleDisconnect clientId gw
  = Gateway.mk
      (if bool_decide (size (sockets ∖ {[clientId]}) = 0%nat)
       then delete userId (Gateway.userSockets gw)
       else <[userId := sockets ∖ {[clientId]}]> (Gateway.userSockets gw))
      (delete clientId (Gateway.socketToUser gw)).
Proof.
  intros Ht Hrev Hfwd. unfold handleDisconnect. rewrite Hrev, Ht. simpl.
  by rewrite Hfwd.
Qed.

(** ** C6: two connections of one identity *)

(** C6.  An identity without connections opens two distinct sockets.  When
    either of them disconnects, the identity is still connected, with one
    connection; when the other one disconnects too, the identity is not
    connected and is not among the connected user ids. *)
Theorem two_connections_then_disconnects
    (config : Config) (gw : Gateway.t) (userId c1 c2 : string)
    (t1 t2 : Z) (h1 h2 : Handshake) (first second : string)
    (Hauth1 : authenticated_as config t1 h1 = Some userId)
    (Hauth2 : authenticated_as config t2 h2 = Some userId)
    (Hdistinct : c1 ≠ c2)
    (Hoffline : Gateway.userSockets gw !! userId = None)
    (Horder : first = c1 ∧ second = c2 ∨ first = c2 ∧ second = c1) :
  let gw2 := (handleConnection config t2 c2 h2 (handleConnection config t1 c1 h1 gw).2).2 in
  let gw3 := handleDisconnect first gw2 in
  let gw4 := handleDisconnect second gw3 in
  isUserConnected gw3 userId = true
  ∧ getUserConnectionCount gw3 userId = 1%nat
  ∧ isUserConnected gw4 userId = false
  ∧ userId ∉ getConnectedUserIds gw4.
Proof.
  intros gw2 gw3 gw4.
  pose proof (authenticated_as_truthy _ _ _ _ Hauth1) as Ht.
  assert (Hgw2 : gw2 = track userId c2 (track userId c1 gw)).
  { subst gw2. by rewrite !(handleConnection_accepted _ _ _ _ _ userId). }
  assert (Hfwd2 : Gateway.userSockets gw2 !! userId = Some ({[c1; c2]} : gset string)).
  { rewrite Hgw2. unfold track; simpl. rewrite !lookup_insert_eq, Hoffline. simpl.
    by rewrite (left_id_L ∅ (∪)). }
  assert (Hrev2 : ∀ c, c = c1 ∨ c = c2 → Gateway.socketToUser gw2 !! c = Some userId).
  { intros c Hc. rewrite Hgw2. unfold track; simpl.
    destruct (decide (c = c2)) as [->|Hne]; [by rewrite lookup_insert_eq|].
    rewrite lookup_insert_ne by done. destruct Hc as [->| ->]; [|done].
    by rewrite lookup_insert_eq. }
  assert (Hfirst : first = c1 ∨ first = c2) by (destruct Horder as [[? _]|[? _]]; auto).
  assert (Hne : first ≠ second) by (destruct Horder as [[-> ->]|[-> ->]]; done).
  assert (Hsecond : second = c1 ∨ second = c2) by (destruct Horder as [[_ ?]|[_ ?]]; auto).
  assert (Hleft : ({[c1; c2]} : gset string) ∖ {[first]} = {[second]}).
  { apply set_eq. intros x.
    rewrite elem_of_difference, elem_of_union, !elem_of_singleton.
    destruct Horder as [[-> ->]|[-> ->]]; intuition congruence. }
  assert (Hgw3 : gw3 = Gateway.mk (<[userId := {[second]}]> (Gateway.userSockets gw2))
                         (delete first (Gateway.socketToUser gw2))).
  { subst gw3. rewrite (handleDisconnect_known _ userId _ {[c1; c2]}) by auto.
    rewrite Hleft, size_singleton. done. }
  assert (Hfwd3 : Gateway.userSockets gw3 !! userId = Some ({[second]} : gset string)).
  { rewrite Hgw3; simpl. by rewrite lookup_insert_eq. }
  assert (Hrev3 : Gateway.socketToUser gw3 !! second = Some userId).
  { rewrite Hgw3; simpl. rewrite lookup_delete_ne by done. by apply Hrev2. }
  assert (Hfwd4 : Gateway.userSockets gw4 !! userId = None).
  { subst gw4. rewrite (handleDisconnect_known _ userId _ {[second]}) by auto.
    rewrite difference_diag_L, size_empty. simpl. by rewrite lookup_delete_eq. }
  unfold isUserConnected, getUserConnectionCount.
  rewrite Hfwd3, Hfwd4, size_singleton. split_and!; try done.
  rewrite getConnectedUserIds_elem, Hfwd4. by intros [? ?].
Qed.

(** ** C5: the two maps of the registry agree *)

(** A consequence: a socket sits in the set of one identity only. *)
Lemma registry_consistent_one_owner (gw : Gateway.t) (u1 u2 clientId : string)
    (s1 s2 : gset string) :
  registry_consistent gw →
  Gateway.userSockets gw !! u1 = Some s1 → clientId ∈ s1 →
  Gateway.userSockets gw !! u2 = Some s2 → clientId ∈ s2 →
  u1 = u2.
Proof.
  intros [Hfwd _] H1 Hin1 H2 Hin2.
  pose proof (Hfwd _ _ _ H1 Hin1) as Hr1. pose proof (Hfwd _ _ _ H2 Hin2) as Hr2.
  congruence.
Qed.

Lemma registry_consistent_empty : registry_consistent Gateway.empty.
Proof. split; intros *; simpl; by rewrite lookup_empty. Qed.

Lemma track_consistent (userId clientId : string) (gw : Gateway.t) :
  registry_consistent gw →
  Gateway.socketToUser gw !! clientId = None
  ∨ Gateway.socketToUser gw !! clientId = Some userId →
  registry_consistent (track userId clientId gw).
Proof.
  intros [Hfwd Hrev] Hfresh. split; unfold track; simpl.
  - intros u sockets c Hu Hc.
    destruct (decide (c = clientId)) as [->|Hc'].
    + rewrite lookup_insert_eq. f_equal.
      destruct (decide (u = userId)) as [|Hu']; [done|].
      rewrite lookup_insert_ne in Hu by done.
      pose proof (Hfwd _ _ _ Hu Hc) as Hr. destruct Hfresh; congruence.
    + rewrite lookup_insert_ne by done.
      destruct (decide (u = userId)) as [->|Hu'].
      * rewrite lookup_insert_eq in Hu. injection Hu as <-.
        apply elem_of_union in Hc as [Hc|Hc]; [|set_solver].
        destruct (Gateway.userSockets gw !! userId) as [old|] eqn:Hold; [|set_solver].
        by apply (Hfwd _ old).
      * rewrite lookup_insert_ne in Hu by done. by apply (Hfwd _ sockets).
  - intros c u Hc.
    destruct (decide (c = clientId)) as [->|Hc'].
    + rewrite lookup_insert_eq in Hc. injection Hc as <-.
      rewrite lookup_insert_eq. eexists. split; [done|].
      by apply elem_of_union_r, elem_of_singleton.
    + rewrite lookup_insert_ne in Hc by done.
      destruct (Hrev _ _ Hc) as (sockets & Hu & Hin).
      destruct (decide (u = userId)) as [->|Hu'].
      * rewrite lookup_insert_eq, Hu. eexists. split; [done|]. simpl.
        by apply elem_of_union_l.
      * rewrite lookup_insert_ne by done. eauto.
Qed.

Lemma handleDisconnect_consistent (clientId : string) (gw : Gateway.t) :
  registry_consistent gw → registry_consistent (handleDisconnect clientId gw).
Proof.
  intros [Hfwd Hrev]. unfold handleDisconnect.
  destruct (Gateway.socketToUser gw !! clientId) as [userId|] eqn:Hclient;
    [|by split].
  destruct (truthy (Some userId)); [|by split]. simpl.
  destruct (Hrev _ _ Hclient) as (sockets & Hsockets & Hin). rewrite Hsockets.
  split; simpl.
  - intros u ss c Hu Hc.
    assert (c ≠ clientId ∧ ∃ ss', Gateway.userSockets gw !! u = Some ss' ∧ c ∈ ss')
      as [Hne (ss' & Hu' & Hc')].
    { case_bool_decide.
      - destruct (decide (u = userId)) as [->|Hne]; [by rewrite lookup_delete_eq in Hu|].
        rewrite lookup_delete_ne in Hu by done. split; [|eauto].
        intros ->. pose proof (Hfwd _ _ _ Hu Hc). congruence.
      - destruct (decide (u = userId)) as [->|Hne].
        + rewrite lookup_insert_eq in Hu. injection Hu as <-.
          apply elem_of_difference in Hc as [Hc Hother%not_elem_of_singleton].
          split; [done|]. by exists sockets.
        + rewrite lookup_insert_ne in Hu by done. split; [|eauto].
          intros ->. pose proof (Hfwd _ _ _ Hu Hc). congruence. }
    rewrite lookup_delete_ne by done. by apply (Hfwd _ ss').
  - intros c u Hc.
    destruct (decide (c = clientId)) as [->|Hne]; [by rewrite lookup_delete_eq in Hc|].
    rewrite lookup_delete_ne in Hc by done.
    destruct (Hrev _ _ Hc) as (ss & Hu & Hin').
    destruct (decide (u = userId)) as [->|Hu'].
    + assert (ss = sockets) as -> by congruence.
      assert (Hstill : c ∈ sockets ∖ {[clientId]})
        by (by apply elem_of_difference; rewrite elem_of_singleton).
      case_bool_decide as Hsize.
      * apply size_empty_iff in Hsize. rewrite Hsize in Hstill.
        by apply elem_of_empty in Hstill.
      * rewrite lookup_insert_eq. eauto.
    + case_bool_decide.
      * rewrite lookup_delete_ne by done. eauto.
      * rewrite lookup_insert_ne by done. eauto.
Qed.

Lemma gateway_step_consistent (config : Config) (gw : Gateway.t) (ev : SocketEvent) :
  registry_consistent gw →
  connections_fresh config gw [ev] →
  registry_consistent (gateway_step config gw ev).
Proof.
  intros Hgw [Hfresh _]. destruct ev as [now clientId h|clientId]; simpl.
  - destruct (authenticated_as config now h) as [userId|] eqn:Hauth.
    + rewrite (handleConnection_accepted _ _ _ _ _ _ Hauth). simpl.
      apply track_consistent; auto.
    + by rewrite handleConnection_rejected.
  - by apply handleDisconnect_consistent.
Qed.

Lemma gateway_run_consistent (config : Config) (evs : list SocketEvent) (gw : Gateway.t) :
  registry_consistent gw →
  connections_fresh config gw evs →
  registry_consistent (gateway_run config evs gw).
Proof.
  revert gw. induction evs as [|ev evs IH]; intros gw Hgw Hfresh; [done|].
  destruct Hfresh as [Hev Hrest]. simpl. apply IH; [|done].
  apply gateway_step_consistent; [done|]. by split.
Qed.

(** C5.  Starting from the empty registry, after every sequence of
    connections and disconnections the forward and the reverse map agree:
    every socket of an identity's set has its reverse entry, for that
    identity, and every reverse entry names the one identity whose set
    holds the socket.  The sequences are those socket.io produces: an open
    connection has an id of its own, so no socket id connects while it is
    still registered for another identity. *)
Theorem registry_consistent_after_events (config : Config) (evs : list SocketEvent)
    (Hfresh : connections_fresh config Gateway.empty evs) :
  let gw := gateway_run config evs Gateway.empty in
  registry_consistent gw
  ∧ ∀ clientId userId other (sockets : gset string),
      Gateway.socketToUser gw !! clientId = Some userId →
      Gateway.userSockets gw !! other = Some sockets →
      clientId ∈ sockets →
      other = userId.
Proof.
  intros gw.
  assert (Hgw : registry_consistent gw)
    by (apply gateway_run_consistent; [apply registry_consistent_empty|done]).
  split; [done|].
  intros clientId userId other sockets Hrev Hother Hin.
  destruct Hgw as [Hfwd _]. pose proof (Hfwd _ _ _ Hother Hin). congruence.
Qed.

(** ** Sorting by decreasing key *)

Section sort_desc.
Context {A : Type} (key : A → Z).

(** The comparator [(a, b) => key(b) - key(a)]. *)
Let cmp (a b : A) : Z := key b - key a.

Lemma sort_insert_perm (x : A) (l : list A) : sort_insert cmp x l ≡ₚ x :: l.
Proof.
  induction l as [|y l IH]; [done|]. simpl.
  destruct (cmp x y <=? 0); [done|]. by rewrite IH, Permutation_swap.
Qed.

Lemma Array_sort_perm (l : list A) : Array_sort cmp l ≡ₚ l.
Proof.
  induction l as [|x l IH]; [done|].
  unfold Array_sort in *. simpl. by rewrite sort_insert_perm, IH.
Qed.

Lemma Array_sort_length (l : list A) : length (Array_sort cmp l) = length l.
Proof. by rewrite Array_sort_perm. Qed.

Lemma sort_insert_descending (x : A) (l : list A) :
  descending key l → descending key (sort_insert cmp x l).
Proof.
  unfold descending. induction 1 as [|y l Hl IH Hy]; simpl.
  - repeat constructor.
  - destruct (cmp x y <=? 0) eqn:Hxy; unfold cmp in Hxy.
    + apply Z.leb_le in Hxy. constructor; [by constructor|].
      constructor; [lia|]. eapply Forall_impl; [exact Hy|]. simpl. lia.
    + apply Z.leb_gt in Hxy. constructor; [done|].
      rewrite sort_insert_perm. constructor; [lia|done].
Qed.

Lemma Array_sort_descending (l : list A) : descending key (Array_sort cmp l).
Proof.
  induction l as [|x l IH]; [constructor|].
  by apply sort_insert_descending.
Qed.

(** An element with a key at least that of [x] goes in front of [x]. *)
Lemma sort_insert_before (a x : A) (pre post : list A) :
  key x ≤ key a →
  ∃ pre', sort_insert cmp a (pre ++ x :: post) = pre' ++ x :: post
          ∧ pre' ≡ₚ a :: pre.
Proof.
  intros Ha. induction pre as [|p pre (pre' & IH & Hperm)]; simpl.
  - assert ((cmp a x <=? 0) = true) as -> by (apply Z.leb_le; unfold cmp; lia).
    by exists [a].
  - destruct (cmp a p <=? 0).
    + by exists (a :: p :: pre).
    + exists (p :: pre'). split; [by rewrite IH|].
      by rewrite Hperm, Permutation_swap.
Qed.

(** An element with a smaller key than [x] and than all that precede [x]
    goes behind [x]. *)
Lemma sort_insert_after (a x : A) (pre post : list A) :
  key a < key x →
  Forall (λ p, key x ≤ key p) pre →
  sort_insert cmp a (pre ++ x :: post) = pre ++ x :: sort_insert cmp a post.
Proof.
  intros Ha. induction 1 as [|p pre Hp _ IH]; simpl.
  - by assert ((cmp a x <=? 0) = false) as -> by (apply Z.leb_gt; unfold cmp; lia).
  - assert ((cmp a p <=? 0) = false) as -> by (apply Z.leb_gt; unfold cmp; lia).
    by rewrite IH.
Qed.

(** Where the element pushed last ends up: behind the elements whose key
    is at least its own, in front of the others. *)
Lemma Array_sort_pushed (l : list A) (x : A) :
  ∃ pre post,
    Array_sort cmp (l ++ [x]) = pre ++ x :: post
    ∧ pre ++ post ≡ₚ l
    ∧ Forall (λ p, key x ≤ key p) pre
    ∧ Forall (λ p, key p < key x) post.
Proof.
  induction l as [|a l (pre & post & IH & Hperm & Hpre & Hpost)].
  - exists [], []. by repeat split.
  - unfold Array_sort in *. simpl. rewrite IH.
    destruct (decide (key x ≤ key a)) as [Ha|Ha].
    + destruct (sort_insert_before a x pre post Ha) as (pre' & -> & Hpre').
      exists pre', post. split_and!; [done| |by rewrite Hpre'; constructor|done].
      by rewrite Hpre', <- Hperm.
    + rewrite sort_insert_after by (done || lia).
      exists pre, (sort_insert cmp a post). split_and!; [done| |done|].
      * by rewrite sort_insert_perm, <- Permutation_middle, Hperm.
      * rewrite sort_insert_perm. constructor; [lia|done].
Qed.

Lemma Array_sort_pushed_rank (l : list A) (x : A) (pre post : list A) :
  Array_sort cmp (l ++ [x]) = pre ++ x :: post →
  Forall (λ p, key x ≤ key p) pre →
  Forall (λ p, key p < key x) post →
  length pre = length (filter (λ p, key x ≤ key p) l).
Proof.
  intros Hsort Hpre Hpost.
  assert (Hperm : pre ++ post ≡ₚ l).
  { apply (Permutation_app_inv_r [x]).
    rewrite <- (Array_sort_perm (l ++ [x])), Hsort.
    transitivity (x :: pre ++ post);
      [symmetry; apply Permutation_cons_append|apply Permutation_middle]. }
  rewrite <- Hperm, filter_app, length_app.
  rewrite (filter_Forall_id _ pre) by done.
  assert (filter (λ p, key x ≤ key p) post = []) as ->; [|simpl; lia].
  clear -Hpost. induction Hpost as [|p post Hp _ IH]; [done|].
  rewrite filter_cons_False by lia. done.
Qed.

(** The last element of a descending list has the least key. *)
Lemma descending_last (l : list A) (e : A) :
  descending key (l ++ [e]) → Forall (λ a, key e ≤ key a) (l ++ [e]).
Proof.
  intros Hdesc. apply Forall_app. split; [|by repeat constructor].
  apply StronglySorted_app in Hdesc as (Hall & _ & _).
  apply Forall_forall. intros a Ha. apply (Hall a e Ha). set_solver.
Qed.
End sort_desc.

(** ** Login: the session minted by [generateTokens] *)

Lemma by_lastActive_desc_key :
  by_lastActive_desc = λ a b, UserSession.lastActive b - UserSession.lastActive a.
Proof. done. Qed.

(** When the library rejects one of the lifetimes [generateTokens] throws
    before it saves anything, with or without [existingSessionId]. *)
Lemma generateTokens_rejected (user : User.t) (req : option Request)
    (existingSessionId : option string) (env : Env) (st : Store) :
  ¬ signs (cfg env) →
  generateTokens user req existingSessionId env st = (Throw TimespanError, st).
Proof.
  intros Hsigns. unfold generateTokens, bind, ask, throw, jwt_sign.
  destruct (accessLifetime (cfg env)) as [access|] eqn:Haccess; [|done].
  destruct (refreshLifetime (cfg env)) as [refresh|] eqn:Hrefresh; [|done].
  exfalso. apply Hsigns. unfold signs. rewrite Haccess, Hrefresh. eauto.
Qed.

(** [generateTokens] without [existingSessionId], the lifetimes accepted:
    it returns the two tokens signed over one payload and saves the list
    purged and capped, the new session pushed on it unless its deadline is
    an Invalid Date. *)
Lemma generateTokens_login (user : User.t) (req : option Request) (env : Env) (st : Store)
    (access refresh : Z) :
  accessLifetime (cfg env) = Some access →
  refreshLifetime (cfg env) = Some refresh →
  let tokens := tokens_for env access refresh user (randomUUID env) in
  let pushed :=
    User.sessions user
    ++ match new_Date (now env + expirationMs env) with
       | Some _ => [newSession env req (Tokens.refreshToken tokens)]
       | None => []
       end in
  generateTokens user req None env st
  = (Ok (tokens, User.set_sessions (purged_and_capped env pushed) user),
     <[User._id user := User.set_sessions (purged_and_capped env pushed) user]> st).
Proof.
  intros Haccess Hrefresh. unfold generateTokens, bind, ask, save, ret, jwt_sign.
  rewrite Haccess, Hrefresh. cbn [truthy negb].
  unfold expirationMs, purged_and_capped, new_Date.
  destruct (bool_decide (- max_time ≤ now env + _ ≤ max_time)); [by destruct user|].
  rewrite app_nil_r. by destruct user.
Qed.

Lemma generateTokens_login_valid (user : User.t) (req : option Request) (env : Env)
    (st : Store) (access refresh : Z) :
  accessLifetime (cfg env) = Some access →
  refreshLifetime (cfg env) = Some refresh →
  valid_date (now env + expirationMs env) →
  let tokens := tokens_for env access refresh user (randomUUID env) in
  let sessions' := sessions_after_login env user req (Tokens.refreshToken tokens) in
  generateTokens user req None env st
  = (Ok (tokens, User.set_sessions sessions' user),
     <[User._id user := User.set_sessions sessions' user]> st).
Proof.
  intros Haccess Hrefresh Hdate.
  rewrite (generateTokens_login user req env st access refresh) by done.
  unfold new_Date. by rewrite bool_decide_eq_true_2.
Qed.

Lemma tokens_for_sessionId (env : Env) (access refresh : Z) (user : User.t)
    (sessionId : string) :
  JwtPayload.sessionId
    <$> jwt_decode (Tokens.accessToken (tokens_for env access refresh user sessionId))
    = Some sessionId
  ∧ JwtPayload.sessionId
      <$> jwt_decode (Tokens.refreshToken (tokens_for env access refresh user sessionId))
    = Some sessionId.
Proof. done. Qed.

(** What the purge and the cap leave: at most ten sessions, none expired,
    all from the list they were given, in a list without repeated ids if
    that one had none. *)
Lemma purged_and_capped_length (env : Env) (pushed : list UserSession.t) :
  (length (purged_and_capped env pushed) ≤ 10)%nat.
Proof.
  unfold purged_and_capped. case_bool_decide; [|lia].
  rewrite length_take. lia.
Qed.

Lemma purged_and_capped_elem (env : Env) (pushed : list UserSession.t) (s : UserSession.t) :
  s ∈ purged_and_capped env pushed →
  now env < UserSession.expiresAt s ∧ s ∈ pushed.
Proof.
  intros Hs.
  assert (Hlive : s ∈ filter (λ session, now env < UserSession.expiresAt session) pushed).
  { unfold purged_and_capped in Hs. case_bool_decide; [|done].
    eapply elem_of_sublist in Hs; [|apply sublist_take].
    by rewrite by_lastActive_desc_key, Array_sort_perm in Hs. }
  by apply list_elem_of_filter in Hlive.
Qed.

Lemma sublist_fmap_id {A B} (f : A → B) (l1 l2 : list A) :
  l1 `sublist_of` l2 → f <$> l1 `sublist_of` f <$> l2.
Proof.
  induction 1; simpl; [constructor|by apply sublist_skip|by apply sublist_cons].
Qed.

Lemma purged_and_capped_NoDup (env : Env) (pushed : list UserSession.t) :
  NoDup (UserSession.id <$> pushed) →
  NoDup (UserSession.id <$> purged_and_capped env pushed).
Proof.
  intros Hpushed.
  assert (Hlive : NoDup (UserSession.id <$>
                           filter (λ session, now env < UserSession.expiresAt session)
                                  pushed)).
  { eapply sublist_NoDup; [exact Hpushed|]. apply sublist_fmap_id, sublist_filter. }
  unfold purged_and_capped. case_bool_decide; [|done].
  eapply sublist_NoDup; [|apply sublist_fmap_id, sublist_take].
  by rewrite by_lastActive_desc_key, Array_sort_perm.
Qed.

Lemma live_after_push (env : Env) (user : User.t) (req : option Request) (token : Jwt) :
  0 < expirationMs env →
  filter (λ session, now env < UserSession.expiresAt session)
         (User.sessions user ++ [newSession env req token])
  = filter (λ session, now env < UserSession.expiresAt session) (User.sessions user)
    ++ [newSession env req token].
Proof.
  intros Hpos. rewrite filter_app. f_equal.
  rewrite filter_cons_True by (simpl; lia). done.
Qed.

(** The new session survives the purge and the cap when it is not born
    expired and fewer than ten unexpired sessions are at least as recently
    active. *)
Lemma newSession_kept (env : Env) (user : User.t) (req : option Request) (token : Jwt) :
  0 < expirationMs env →
  (length (not_older env user) < 10)%nat →
  newSession env req token ∈ sessions_after_login env user req token.
Proof.
  intros Hpos Hrank. unfold sessions_after_login, purged_and_capped, not_older in *.
  rewrite live_after_push by done.
  set (old := filter _ (User.sessions user)) in *.
  case_bool_decide; [|set_solver].
  rewrite by_lastActive_desc_key.
  destruct (Array_sort_pushed UserSession.lastActive old (newSession env req token))
    as (pre & post & Hsort & _ & Hpre & Hpost).
  pose proof (Array_sort_pushed_rank _ _ _ _ _ Hsort Hpre Hpost) as Hlen.
  simpl in Hlen. rewrite Hsort.
  apply list_elem_of_lookup. exists (length pre).
  rewrite lookup_take_lt by lia. by rewrite list_lookup_middle.
Qed.

(** Session ids stay unique through a login that draws a fresh id. *)
Lemma login_keeps_ids_unique (env : Env) (user : User.t) (minted : list UserSession.t) :
  NoDup (UserSession.id <$> User.sessions user) →
  randomUUID env ∉ UserSession.id <$> User.sessions user →
  (minted = [] ∨ ∃ s, minted = [s] ∧ UserSession.id s = randomUUID env) →
  NoDup (UserSession.id <$> purged_and_capped env (User.sessions user ++ minted)).
Proof.
  intros Hnodup Hfresh Hminted. apply purged_and_capped_NoDup.
  destruct Hminted as [->|(s & -> & Hid)]; [by rewrite app_nil_r|].
  rewrite fmap_app. apply NoDup_app. split_and!; [done| |apply NoDup_singleton].
  intros x Hx Hs. simpl in Hs. apply list_elem_of_singleton in Hs. congruence.
Qed.

(** ** C3: the session of a login *)


(** ** C4: the eleventh session *)

(** C4, as the code has it.  A user holds ten unexpired sessions, one of
    them last active before the instant of the login; the JWT library
    accepts the two configured lifetimes and the deadline of the new
    session is a valid date after the instant of the login.  The login then
    leaves ten sessions, the new one among them: the eleven sessions less
    one of the ten, whose [lastActive] none of the eleven precedes. *)
Theorem eleventh_session_evicts_least_recent
    (user : User.t) (req : option Request) (env : Env) (st : Store)
    (Hten : length (User.sessions user) = 10%nat)
    (Hlive : Forall (λ s, now env < UserSession.expiresAt s) (User.sessions user))
    (Hsigns : signs (cfg env))
    (Hdate : valid_date (now env + expirationMs env))
    (Hlifetime : 0 < expirationMs env)
    (Holder : Exists (λ s, UserSession.lastActive s < now env) (User.sessions user)) :
  ∃ tokens user' evicted,
    generateTokens user req None env st
      = (Ok (tokens, user'), <[User._id user := user']> st)
    ∧ length (User.sessions user') = 10%nat
    ∧ newSession env req (Tokens.refreshToken tokens) ∈ User.sessions user'
    ∧ evicted ∈ User.sessions user
    ∧ User.sessions user' ++ [evicted]
      ≡ₚ User.sessions user ++ [newSession env req (Tokens.refreshToken tokens)]
    ∧ Forall (λ s, UserSession.lastActive evicted ≤ UserSession.lastActive s)
             (User.sessions user ++ [newSession env req (Tokens.refreshToken tokens)]).
Proof.
  destruct Hsigns as [[access Haccess] [refresh Hrefresh]].
  set (tokens := tokens_for env access refresh user (randomUUID env)).
  set (new := newSession env req (Tokens.refreshToken tokens)).
  assert (Hall : filter (λ session, now env < UserSession.expiresAt session)
                        (User.sessions user ++ [new]) = User.sessions user ++ [new]).
  { subst new. rewrite live_after_push by done. by rewrite filter_Forall_id. }
  destruct (Array_sort_pushed UserSession.lastActive (User.sessions user) new)
    as (pre & post & Hsort & Hperm & Hpre & Hpost).
  assert (Hpost' : ∃ post' evicted, post = post' ++ [evicted]) .
  { destruct post as [|p post _] using rev_ind; [|eauto]. exfalso.
    rewrite app_nil_r in Hperm. rewrite <- Hperm in Holder.
    apply Exists_exists in Holder as (s & Hs & Hlt).
    rewrite Forall_forall in Hpre. specialize (Hpre s Hs). simpl in Hpre. lia. }
  destruct Hpost' as (post' & evicted & ->).
  assert (Hsorted : Array_sort by_lastActive_desc (User.sessions user ++ [new])
                    = (pre ++ new :: post') ++ [evicted]).
  { rewrite by_lastActive_desc_key, Hsort. by rewrite <- app_assoc. }
  assert (Hlen : length (pre ++ new :: post') = 10%nat).
  { apply (f_equal length) in Hsorted. rewrite by_lastActive_desc_key in Hsorted.
    rewrite Array_sort_length, !length_app in Hsorted. simpl in *.
    rewrite length_app in *. simpl. lia. }
  assert (Hafter : sessions_after_login env user req (Tokens.refreshToken tokens)
                   = pre ++ new :: post').
  { unfold sessions_after_login, purged_and_capped. fold new. rewrite Hall.
    rewrite bool_decide_eq_true_2 by (rewrite length_app; simpl; lia).
    rewrite Hsorted, <- Hlen. apply take_app_length. }
  exists tokens,
         (User.set_sessions
            (sessions_after_login env user req (Tokens.refreshToken tokens)) user),
         evicted.
  split; [by apply generateTokens_login_valid|].
  cbn [User.sessions User.set_sessions]. rewrite Hafter.
  split_and!.
  - done.
  - set_solver.
  - rewrite <- Hperm. set_solver.
  - rewrite <- Hsorted, by_lastActive_desc_key. apply Array_sort_perm.
  - fold new.
    rewrite <- (Array_sort_perm UserSession.lastActive (User.sessions user ++ [new])).
    rewrite <- by_lastActive_desc_key, Hsorted.
    apply (descending_last UserSession.lastActive).
    rewrite <- Hsorted, by_lastActive_desc_key. apply Array_sort_descending.
Qed.

(** ** Refreshing: the successful path *)

Lemma list_find_alter_same {A} (P : A → Prop) `{∀ x, Decision (P x)}
    (f : A → A) (l : list A) (i : nat) (x : A) :
  (∀ y, P (f y) ↔ P y) →
  list_find P l = Some (i, x) →
  list_find P (alter f i l) = Some (i, f x).
Proof.
  intros Hf (Hi & Hx & Hbefore)%list_find_Some. apply list_find_Some. split_and!.
  - by rewrite list_lookup_alter_eq, Hi.
  - by apply Hf.
  - intros j y Hj Hlt. rewrite list_lookup_alter_ne in Hj by lia. eauto.
Qed.

(** Altering an element in a way the predicate does not see does not move
    the first element that satisfies it. *)
Lemma list_find_alter_index {A} (P : A → Prop) `{∀ x, Decision (P x)}
    (f : A → A) (l : list A) (i : nat) :
  (∀ y, P (f y) ↔ P y) →
  fst <$> list_find P (alter f i l) = fst <$> list_find P l.
Proof.
  intros Hf. revert i. induction l as [|x l IH]; intros i; [done|].
  destruct i as [|i]; simpl.
  - destruct (decide (P (f x))) as [Hfx|Hfx], (decide (P x)) as [Hx|Hx];
      try done; exfalso; by (apply Hfx, Hf || apply Hx, Hf).
  - destruct (decide (P x)); [done|].
    change (list_alter f i l) with (alter f i l).
    specialize (IH i). destruct (list_find P (alter f i l)) as [[j y]|],
      (list_find P l) as [[k z]|]; cbn in *; congruence.
Qed.

Lemma list_find_unique_id (l : list UserSession.t) (i : nat) (s : UserSession.t) :
  NoDup (UserSession.id <$> l) →
  l !! i = Some s →
  list_find (λ x, UserSession.id x = UserSession.id s) l = Some (i, s).
Proof.
  intros Hnodup Hi. apply list_find_Some. split_and!; [done|done|].
  intros j y Hj Hlt Hid.
  assert (j = i); [|lia].
  eapply NoDup_lookup; [exact Hnodup| |].
  - by rewrite list_lookup_fmap, Hj.
  - by rewrite list_lookup_fmap, Hi, Hid.
Qed.

(** [locate_session] is one of the two ways of locating. *)
Lemma locate_session_Some (payload : JwtPayload.t) (token : Jwt)
    (sessions : list UserSession.t) (i : nat) (session : UserSession.t) :
  locate_session payload token sessions = Some (i, session)
  ↔ located_by_id payload sessions i session
    ∨ located_by_token payload token sessions i session.
Proof.
  unfold locate_session, located_by_id, located_by_token. simpl.
  destruct (String.eqb_spec (JwtPayload.sessionId payload) "") as [Hsid|Hsid]; simpl.
  - split; [intros Hfind; right; auto|].
    by intros [[? _]|[_ ?]].
  - destruct (list_find (λ s, UserSession.id s = JwtPayload.sessionId payload
                              ∧ UserSession.isActive s = true) sessions)
      as [found|] eqn:Hfind.
    + split; [intros [= ->]; left; auto|].
      intros [[_ ?]|[[?|Hnone] _]]; [done|done|].
      apply (proj2 (list_find_None _ _)) in Hnone. by rewrite Hnone in Hfind.
    + split; [intros Htoken; right; split;
                [right; by apply (proj1 (list_find_None _ _))|done]|].
      by intros [[_ ?]|[_ ?]].
Qed.

Lemma locate_session_elem (payload : JwtPayload.t) (token : Jwt)
    (sessions : list UserSession.t) (i : nat) (session : UserSession.t) :
  locate_session payload token sessions = Some (i, session) →
  sessions !! i = Some session ∧ UserSession.isActive session = true.
Proof.
  intros [[_ Hfind]|[_ Hfind]]%locate_session_Some;
    by apply list_find_Some in Hfind as (? & [_ ?] & _).
Qed.

Lemma touched_fields (env : Env) (req : option Request) (s : UserSession.t) :
  UserSession.id (touched env req s) = UserSession.id s
  ∧ UserSession.refreshToken (touched env req s) = UserSession.refreshToken s
  ∧ UserSession.isActive (touched env req s) = UserSession.isActive s
  ∧ UserSession.lastActive (touched env req s) = now env
  ∧ UserSession.createdAt (touched env req s) = UserSession.createdAt s
  ∧ UserSession.expiresAt (touched env req s) = UserSession.expiresAt s.
Proof. unfold touched. by destruct req. Qed.

Lemma rotated_fields (env : Env) (token : Jwt) (s : UserSession.t) :
  UserSession.id (rotated env token s) = UserSession.id s
  ∧ UserSession.refreshToken (rotated env token s) = token
  ∧ UserSession.isActive (rotated env token s) = UserSession.isActive s
  ∧ UserSession.lastActive (rotated env token s) = now env
  ∧ UserSession.createdAt (rotated env token s) = UserSession.createdAt s
  ∧ UserSession.expiresAt (rotated env token s) = UserSession.expiresAt s.
Proof. done. Qed.

(** [generateTokens] for an existing session id, the lifetimes accepted:
    the first session of that id gets the new refresh token. *)
Lemma generateTokens_existing (user : User.t) (req : option Request) (sessionId : string)
    (env : Env) (st : Store) (access refresh : Z) :
  sessionId ≠ "" →
  accessLifetime (cfg env) = Some access →
  refreshLifetime (cfg env) = Some refresh →
  let tokens := tokens_for env access refresh user sessionId in
  generateTokens user req (Some sessionId) env st
  = match list_find (λ s, UserSession.id s = sessionId) (User.sessions user) with
    | Some (k, _) =>
        let user' :=
          User.set_sessions
            (alter (rotated env (Tokens.refreshToken tokens)) k (User.sessions user)) user in
        (Ok (tokens, user'), <[User._id user := user']> st)
    | None => (Ok (tokens, user), st)
    end.
Proof.
  intros Hsid Haccess Hrefresh. unfold generateTokens, bind, ask, save, ret, jwt_sign.
  rewrite Haccess, Hrefresh. simpl.
  apply String.eqb_neq in Hsid as ->. simpl.
  destruct (list_find _ _) as [[k s]|]; [|done]. by destruct user.
Qed.

(** The successful path of [refreshToken]: the session located is touched
    and saved, then the first session of its id, [k], gets the new refresh
    token. *)
Lemma refreshToken_accepted
    (env : Env) (st : Store) (token : Jwt) (req : option Request)
    (payload : JwtPayload.t) (doc : User.t) (i : nat) (session : UserSession.t)
    (access refresh : Z) :
  jwt_verify (JWT_REFRESH_SECRET (cfg env)) (now env) token = Some payload →
  document st (JwtPayload.sub payload) = Some doc →
  User.isActive doc = true →
  locate_session payload token (User.sessions doc) = Some (i, session) →
  now env ≤ UserSession.expiresAt session →
  UserSession.id session ≠ "" →
  accessLifetime (cfg env) = Some access →
  refreshLifetime (cfg env) = Some refresh →
  ∃ k,
    fst <$> list_find (λ s, UserSession.id s = UserSession.id session) (User.sessions doc)
    = Some k
    ∧ let tokens := tokens_for env access refresh doc (UserSession.id session) in
      let doc' :=
        User.set_sessions
          (alter (rotated env (Tokens.refreshToken tokens)) k
             (alter (touched env req) i (User.sessions doc))) doc in
      refreshToken token req env st
      = (Ok (AuthTokens.mk (Tokens.accessToken tokens) (Tokens.refreshToken tokens)
               (toJSON doc')),
         <[JwtPayload.sub payload := doc']> st).
Proof.
  intros Hverify Hdoc Hactive Hlocated Hlive Hid Haccess Hrefresh.
  pose proof (locate_session_elem _ _ _ _ _ Hlocated) as [Hi _].
  pose proof Hdoc as [_ Hsub]%document_Some.
  destruct (list_find (λ s, UserSession.id s = UserSession.id session) (User.sessions doc))
    as [[k first]|] eqn:Hfirst.
  2:{ apply list_find_None in Hfirst. rewrite Forall_forall in Hfirst.
      exfalso. by apply (Hfirst session); [eapply list_elem_of_lookup_2|]. }
  exists k. split; [done|]. intros tokens doc'.
  unfold refreshToken, try_catch, bind, ask, findById, throw, save, ret.
  rewrite Hverify, Hdoc, Hactive. simpl. rewrite Hlocated.
  rewrite bool_decide_eq_false_2 by lia.
  fold (touched env req).
  rewrite (generateTokens_existing _ _ _ _ _ access refresh) by done.
  cbn [User.sessions User.set_sessions].
  assert (Hfind : fst <$> list_find (λ s, UserSession.id s = UserSession.id session)
                            (alter (touched env req) i (User.sessions doc)) = Some k).
  { rewrite list_find_alter_index, Hfirst; [done|].
    intros y. by destruct (touched_fields env req y) as [-> _]. }
  destruct (list_find _ (alter (touched env req) i (User.sessions doc)))
    as [[k' first']|]; [|done].
  injection Hfind as ->. simpl.
  rewrite insert_insert_eq, <- Hsub. by destruct doc.
Qed.

(** With unique ids the session located is the one that gets the token. *)
Lemma refreshToken_accepted_unique
    (env : Env) (st : Store) (token : Jwt) (req : option Request)
    (payload : JwtPayload.t) (doc : User.t) (i : nat) (session : UserSession.t)
    (access refresh : Z) :
  jwt_verify (JWT_REFRESH_SECRET (cfg env)) (now env) token = Some payload →
  document st (JwtPayload.sub payload) = Some doc →
  User.isActive doc = true →
  locate_session payload token (User.sessions doc) = Some (i, session) →
  now env ≤ UserSession.expiresAt session →
  UserSession.id session ≠ "" →
  NoDup (UserSession.id <$> User.sessions doc) →
  accessLifetime (cfg env) = Some access →
  refreshLifetime (cfg env) = Some refresh →
  let tokens := tokens_for env access refresh doc (UserSession.id session) in
  let doc' :=
    User.set_sessions
      (alter (refreshed env req (Tokens.refreshToken tokens)) i (User.sessions doc)) doc in
  refreshToken token req env st
  = (Ok (AuthTokens.mk (Tokens.accessToken tokens) (Tokens.refreshToken tokens)
           (toJSON doc')),
     <[JwtPayload.sub payload := doc']> st).
Proof.
  intros Hverify Hdoc Hactive Hlocated Hlive Hid Hnodup Haccess Hrefresh tokens doc'.
  pose proof (locate_session_elem _ _ _ _ _ Hlocated) as [Hi _].
  destruct (refreshToken_accepted env st token req payload doc i session access refresh)
    as (k & Hk & ->); try done.
  rewrite (list_find_unique_id _ i session) in Hk by done. injection Hk as <-.
  subst doc'. by rewrite list_alter_alter_eq.
Qed.

(** ** The properties on the scenario *)

Import Scenario.

(** Alice logs out of [s1]; her access token, minted a minute before, still
    verifies and is refused. *)
Lemma validate_after_logout_unauthorized_witness :
  jwt_verify (JWT_SECRET config) (t0 + 60000) access0 = Some payload0
  ∧ canActivate false (Some access0) (at_ (t0 + 60000) "unused")
      (logout "u1" (Some "s1") (at_ (t0 + 30000) "unused") store1).2
    = (Throw (UnauthorizedException "Invalid token"),
       (logout "u1" (Some "s1") (at_ (t0 + 30000) "unused") store1).2).
Proof.
  split; [reflexivity|].
  apply (validate_after_logout_unauthorized
           (at_ (t0 + 30000) "unused") (at_ (t0 + 60000) "unused") store1 payload0 access0).
  reflexivity.
Defined.

(** Eight days after the login the token of the sixth day still verifies,
    the session has expired: the refresh fails and the session is gone. *)
Lemma refreshToken_expired_session_purged_witness :
  (refreshToken refresh6 None (at_ (t0 + 8 * day) "unused") store6).1
  = Throw (UnauthorizedException "Invalid refresh token")
  ∧ ∃ doc',
      document (refreshToken refresh6 None (at_ (t0 + 8 * day) "unused") store6).2 "u1"
      = Some doc'
      ∧ User.sessions doc'
        = filter (λ s, UserSession.id s ≠ UserSession.id session6) (User.sessions alice6)
      ∧ session6 ∉ User.sessions doc'.
Proof.
  apply (refreshToken_expired_session_purged
           (at_ (t0 + 8 * day) "unused") store6 refresh6 None payload0 alice6 0%nat session6).
  - reflexivity.
  - reflexivity.
  - reflexivity.
  - reflexivity.
  - vm_compute. reflexivity.
Defined.

(** A request without a token. *)
Lemma guard_on_authentication_failure_witness :
  canActivate true None (at_ t0 "unused") store1 = (Ok None, store1)
  ∧ ∃ message,
      canActivate false None (at_ t0 "unused") store1
      = (Throw (UnauthorizedException message), store1).
Proof.
  apply (guard_on_authentication_failure None (at_ t0 "unused") store1).
  left. reflexivity.
Defined.

Lemma getUserSessions_hides_refreshToken_witness :
  ∃ listing,
    (getUserSessions alice_ref (at_ (t0 + day) "unused") store1).1 = Ok listing
    ∧ listing = hide_refreshToken <$>
                  filter (λ session, UserSession.isActive session = true
                                     ∧ now (at_ (t0 + day) "unused")
                                       < UserSession.expiresAt session)
                         (User.sessions alice1)
    ∧ Forall (λ v, SessionView.refreshToken v = None) listing.
Proof.
  apply (getUserSessions_hides_refreshToken
           (at_ (t0 + day) "unused") store1 alice_ref "u1" alice1);
    reflexivity.
Defined.

Lemma terminateSession_unknown_session_not_found_witness :
  terminateSession alice_ref "s9" (at_ (t0 + day) "unused") store1
    = (Throw (NotFoundException "Session not found"), store1)
  ∧ (logout "u1" (Some "s9") (at_ (t0 + day) "unused") store1).1 = Ok tt.
Proof.
  apply (terminateSession_unknown_session_not_found
           (at_ (t0 + day) "unused") store1 alice_ref "u1" "s9" alice1).
  - reflexivity.
  - reflexivity.
  - repeat constructor. discriminate.
Defined.

(** Two tabs of Alice. *)
Lemma two_connections_then_disconnects_witness :
  let gw2 :=
    (handleConnection config (t0 + 2000) "tab-2" (handshake_of access0)
       (handleConnection config (t0 + 1000) "tab-1" (handshake_of access0)
          Gateway.empty).2).2 in
  let gw3 := handleDisconnect "tab-1" gw2 in
  let gw4 := handleDisconnect "tab-2" gw3 in
  isUserConnected gw3 "u1" = true
  ∧ getUserConnectionCount gw3 "u1" = 1%nat
  ∧ isUserConnected gw4 "u1" = false
  ∧ "u1" ∉ getConnectedUserIds gw4.
Proof.
  apply (two_connections_then_disconnects config Gateway.empty "u1" "tab-1" "tab-2"
           (t0 + 1000) (t0 + 2000) (handshake_of access0) (handshake_of access0)
           "tab-1" "tab-2").
  - reflexivity.
  - reflexivity.
  - discriminate.
  - reflexivity.
  - left. split; reflexivity.
Defined.

(** Alice opens two tabs, Bob one; Alice closes her first tab. *)
Lemma registry_consistent_after_events_witness :
  registry_consistent
    (gateway_run config
       [Connection (t0 + 1000) "tab-1" (handshake_of access0);
        Connection (t0 + 2000) "tab-2" (handshake_of access0);
        Connection (t0 + 3000) "tab-3" (handshake_of access_u2);
        Disconnection "tab-1"]
       Gateway.empty).
Proof.
  apply (registry_consistent_after_events config
           [Connection (t0 + 1000) "tab-1" (handshake_of access0);
            Connection (t0 + 2000) "tab-2" (handshake_of access0);
            Connection (t0 + 3000) "tab-3" (handshake_of access_u2);
            Disconnection "tab-1"]).
  simpl. split_and!; try done; intros userId _; left; reflexivity.
Defined.



(** With a lifetime of a hundred million days the deadline is past the
    greatest time value: the login returns its tokens and the session,
    whose [expiresAt] is an Invalid Date, is purged before the document is
    saved. *)
Example login_session_lost_on_invalid_date :
  let env := {| cfg := config_100000000d; now := t0; randomUUID := "s1" |} in
  0 < expirationMs env
  ∧ new_Date (now env + expirationMs env) = None
  ∧ ∃ tokens user',
      generateTokens alice None None env store0
      = (Ok (tokens, user'), <[User._id alice := user']> store0)
      ∧ User.sessions user' = [].
Proof.
  intros env. split; [reflexivity|]. split; [reflexivity|].
  rewrite (generateTokens_login alice None env store0 900 8640000000000) by reflexivity.
  eexists _, _. split; reflexivity.
Qed.

(** Bob, with ten sessions, logs in again. *)
Lemma eleventh_session_evicts_least_recent_witness :
  ∃ tokens user' evicted,
    generateTokens bob None None (at_ (t0 + day) "s11") store0
      = (Ok (tokens, user'), <[User._id bob := user']> store0)
    ∧ length (User.sessions user') = 10%nat
    ∧ newSession (at_ (t0 + day) "s11") None (Tokens.refreshToken tokens)
      ∈ User.sessions user'
    ∧ evicted ∈ User.sessions bob
    ∧ User.sessions user' ++ [evicted]
      ≡ₚ User.sessions bob
         ++ [newSession (at_ (t0 + day) "s11") None (Tokens.refreshToken tokens)]
    ∧ Forall (λ s, UserSession.lastActive evicted ≤ UserSession.lastActive s)
             (User.sessions bob
              ++ [newSession (at_ (t0 + day) "s11") None (Tokens.refreshToken tokens)]).
Proof.
  apply (eleventh_session_evicts_least_recent bob None (at_ (t0 + day) "s11") store0).
  - reflexivity.
  - repeat (constructor; [reflexivity|]). constructor.
  - split; by eexists.
  - vm_compute. split; discriminate.
  - reflexivity.
  - apply Exists_cons_hd. reflexivity.
Defined.

(** C4, counterexample.  Carol's ten unexpired sessions were all last
    active at the instant of her login.  The sort leaves the eleven
    sessions in the order of the list, the new one last, and the cap cuts
    it: the ten old sessions stay and the session just created is not
    among them. *)
Lemma eleventh_session_evicted_on_tie :
  length (User.sessions carol) = 10%nat
  ∧ Forall (λ s, t0 < UserSession.expiresAt s) (User.sessions carol)
  ∧ ∃ tokens user',
      generateTokens carol None None (at_ t0 "s11") store0
        = (Ok (tokens, user'), <[User._id carol := user']> store0)
      ∧ User.sessions user' = User.sessions carol
      ∧ newSession (at_ t0 "s11") None (Tokens.refreshToken tokens)
        ∉ User.sessions user'.
Proof.
  split; [reflexivity|]. split.
  - repeat (constructor; [reflexivity|]). constructor.
  - rewrite (generateTokens_login carol None _ store0 900 604800) by reflexivity.
    eexists _, _. split; [reflexivity|].
    split; [reflexivity|].
    intros Hin. apply list_elem_of_fmap_2 with (f := UserSession.id) in Hin.
    revert Hin. vm_compute. intros Hin.
    repeat (apply elem_of_cons in Hin as [Hin|Hin]; [discriminate Hin|]).
    by apply elem_of_nil in Hin.
Qed.

(** C1.  The claim fails on the path [refreshToken] prefers.  Alice
    refreshes with [refresh0] a day after her login: the call returns and
    the session [s1] now stores [refresh1], another token.  A day later the
    superseded [refresh0] is presented again: the session is found under
    the [sessionId] of the payload, the token presented is not compared
    with the one stored, and the call returns again. *)
Theorem superseded_refresh_token_accepted :
  returned (refreshToken refresh0 None (at_ (t0 + day) "unused") store1) = true
  ∧ UserSession.refreshToken <$> (document store2 "u1" ≫= λ doc, User.sessions doc !! 0%nat)
    = Some refresh1
  ∧ refresh1 ≠ refresh0
  ∧ returned (refreshToken refresh0 None (at_ (t0 + 2 * day) "unused") store2) = true.
Proof. split_and!; [reflexivity|reflexivity|discriminate|reflexivity]. Qed.

(** * Further properties *)

(** ** [parseTokenExpiration] *)

Lemma is_digit_value (c : ascii) : is_digit c = true → 0 ≤ digit_value c ≤ 9.
Proof. unfold is_digit, digit_value. intros [? ?]%andb_true_iff. lia. Qed.

Lemma decimal_from (acc : Z) (digits : list ascii) :
  0 ≤ acc →
  Forall (λ c, is_digit c = true) digits →
  0 ≤ foldl (λ acc c, 10 * acc + digit_value c) acc digits.
Proof.
  intros Hacc Hdigits. revert acc Hacc.
  induction Hdigits as [|c digits Hc _ IH]; intros acc Hacc; simpl; [done|].
  apply IH. pose proof (is_digit_value c Hc). lia.
Qed.

Lemma match_expiration_digits (acc : option Z) (digits : list ascii) (unit : ascii) :
  Forall (λ c, is_digit c = true) digits →
  is_unit unit = true →
  match_expiration acc (string_of_list_ascii (digits ++ [unit]))
  = match digits with
    | [] => (λ n, (n, unit)) <$> acc
    | _ => Some (foldl (λ acc c, 10 * acc + digit_value c) (default 0 acc) digits, unit)
    end.
Proof.
  intros Hdigits Hunit. revert acc.
  induction Hdigits as [|c digits Hc Hdigits IH]; intros acc; simpl.
  - rewrite Hunit. by destruct acc.
  - rewrite Hc. specialize (IH (Some (10 * default 0 acc + digit_value c))).
    destruct digits as [|c' digits]; simpl in *; by rewrite IH.
Qed.

Lemma match_expiration_inv (acc : option Z) (s : string) (n : Z) (unit : ascii) :
  match_expiration acc s = Some (n, unit) →
  ∃ digits,
    s = string_of_list_ascii (digits ++ [unit])
    ∧ Forall (λ c, is_digit c = true) digits
    ∧ is_unit unit = true
    ∧ (acc = None → digits ≠ [])
    ∧ n = foldl (λ acc c, 10 * acc + digit_value c) (default 0 acc) digits.
Proof.
  revert acc. induction s as [|c s IH]; intros acc; simpl; [done|].
  destruct s as [|c' s].
  - destruct acc as [m|]; [|done].
    destruct (is_unit c) eqn:Hunit; [|done]. intros [= <- <-].
    exists []. by split_and!.
  - destruct (is_digit c) eqn:Hc; [|done]. intros Hrec.
    apply IH in Hrec as (digits & Hs & Hdigits & Hunit & _ & ->).
    exists (c :: digits). simpl. rewrite Hs. by split_and!; [|constructor| | |].
Qed.

Lemma unit_ms_positive (unit : ascii) : 0 < unit_ms unit.
Proof. unfold unit_ms. repeat case_bool_decide; lia. Qed.

(** X1.  On the digits of a number [n] followed by [s], [m], [h] or [d],
    [parseTokenExpiration] is [n] seconds, minutes, hours or days, in
    milliseconds, as long as that is at most 2^53, where the doubles of the
    source are exact. *)
Theorem parseTokenExpiration_well_formed (digits : list ascii) (unit : ascii)
    (Hsome : digits ≠ [])
    (Hdigits : Forall (λ c, is_digit c = true) digits)
    (Hunit : is_unit unit = true)
    (Hexact : decimal digits * unit_ms unit ≤ 2 ^ 53) :
  parseTokenExpiration (string_of_list_ascii (digits ++ [unit]))
  = decimal digits * unit_ms unit.
Proof.
  unfold parseTokenExpiration. rewrite match_expiration_digits by done.
  destruct digits as [|c digits]; [done|].
  unfold decimal, unit_ms. unfold is_unit in Hunit. simpl.
  generalize (foldl (λ acc c0, 10 * acc + digit_value c0) (10 * 0 + digit_value c) digits).
  intros n. repeat case_bool_decide; simpl in Hunit; try done; lia.
Qed.

Lemma parseTokenExpiration_shape (expiration : string) :
  0 ≤ parseTokenExpiration expiration
  ∧ (well_formed_expiration expiration
     ∨ parseTokenExpiration expiration = 7 * 24 * 60 * 60 * 1000).
Proof.
  unfold parseTokenExpiration.
  destruct (match_expiration None expiration) as [[n unit]|] eqn:Hmatch;
    [|split; [lia|by right]].
  apply match_expiration_inv in Hmatch as (digits & -> & Hdigits & Hunit & Hsome & ->).
  assert (0 ≤ foldl (λ acc c, 10 * acc + digit_value c) (default 0 None) digits)
    by (by apply decimal_from).
  split.
  - repeat case_bool_decide; lia.
  - left. exists digits, unit. split_and!; auto.
Qed.

(** X2.  [parseTokenExpiration] never returns a negative lifetime, and
    returns seven days on every string that is not digits followed by one
    of the four units. *)
Theorem parseTokenExpiration_fallback (expiration : string) :
  0 ≤ parseTokenExpiration expiration
  ∧ (well_formed_expiration expiration
     ∨ parseTokenExpiration expiration = 7 * 24 * 60 * 60 * 1000).
Proof. apply parseTokenExpiration_shape. Qed.

(** ** [SmsService]: phone numbers *)

Lemma string_length_list (s : string) :
  String.length s = length (list_ascii_of_string s).
Proof. induction s as [|c s IH]; simpl; [done|by rewrite IH]. Qed.

(** X3.  [formatPhoneNumber] leaves nothing but digits and plus signs, and
    formatting a formatted number changes nothing. *)
Theorem formatPhoneNumber_idempotent (phoneNumber : string) :
  SmsService.formatPhoneNumber (SmsService.formatPhoneNumber phoneNumber)
  = SmsService.formatPhoneNumber phoneNumber
  ∧ Forall (λ c, is_digit c = true ∨ c = "+"%char)
           (list_ascii_of_string (SmsService.formatPhoneNumber phoneNumber)).
Proof.
  unfold SmsService.formatPhoneNumber.
  rewrite !list_ascii_of_string_of_list_ascii.
  assert (Hkept : Forall (λ c, is_digit c = true ∨ c = "+"%char)
                    (filter (λ c, is_digit c = true ∨ c = "+"%char)
                            (list_ascii_of_string phoneNumber))).
  { apply Forall_forall. by intros c [Hc _]%list_elem_of_filter. }
  split; [|done]. by rewrite filter_Forall_id.
Qed.

(** X4.  A number [isValidPhoneNumber] accepts has between 3 and 16
    characters and is left as it is by [formatPhoneNumber]. *)
Theorem valid_phone_number_is_formatted (phoneNumber : string)
    (Hvalid : SmsService.isValidPhoneNumber phoneNumber = true) :
  SmsService.formatPhoneNumber phoneNumber = phoneNumber
  ∧ (3 ≤ String.length phoneNumber ≤ 16)%nat.
Proof.
  unfold SmsService.isValidPhoneNumber, SmsService.formatPhoneNumber in *.
  rewrite string_length_list.
  rewrite <- (string_of_list_ascii_of_string phoneNumber) at 2.
  destruct (list_ascii_of_string phoneNumber) as [|plus [|first rest]]; try done.
  repeat (apply andb_true_iff in Hvalid as [Hvalid ?]).
  apply bool_decide_eq_true in Hvalid as ->.
  split; [|simpl; case_bool_decide; [lia|done]].
  f_equal. apply filter_Forall_id.
  apply Forall_cons; split; [by right|]. apply Forall_cons; split; [by left|].
  apply Forall_forall. intros c Hc. left.
  eapply forallb_forall; [eassumption|]. by apply list_elem_of_In.
Qed.

Lemma valid_phone_number_is_formatted_witness :
  SmsService.formatPhoneNumber "+237650000001" = "+237650000001"
  ∧ (3 ≤ String.length "+237650000001" ≤ 16)%nat.
Proof. apply (valid_phone_number_is_formatted "+237650000001"). reflexivity. Defined.

Lemma parseTokenExpiration_well_formed_witness :
  parseTokenExpiration (string_of_list_ascii (["1"; "5"] ++ ["m"]))%char
  = decimal ["1"; "5"]%char * unit_ms "m"%char.
Proof.
  apply (parseTokenExpiration_well_formed ["1"; "5"]%char "m"%char).
  - discriminate.
  - repeat constructor.
  - reflexivity.
  - vm_compute. discriminate.
Defined.

(** ** Sessions: validation, logout and termination *)

Lemma document_insert_ne (st : Store) (key id : string) (doc : User.t) :
  key ≠ id → document (<[key := doc]> st) id = document st id.
Proof. intros Hne. unfold document. by rewrite lookup_insert_ne. Qed.

Lemma list_find_cons_eq {A} (P : A → Prop) `{∀ x, Decision (P x)} (y : A) (l : list A) :
  list_find P (y :: l)
  = if decide (P y) then Some (0%nat, y) else prod_map S id <$> list_find P l.
Proof. done. Qed.

Lemma list_find_filter_keep {A} (P Q : A → Prop) `{∀ x, Decision (P x)}
    `{∀ x, Decision (Q x)} (l : list A) (i : nat) (x : A) :
  list_find P l = Some (i, x) → Q x →
  ∃ j, list_find P (filter Q l) = Some (j, x).
Proof.
  intros Hfind Hx. revert i Hfind.
  induction l as [|y l IH]; intros i; [done|]. rewrite list_find_cons_eq.
  destruct (decide (P y)) as [Hy|Hy].
  - intros [= <- <-]. rewrite filter_cons_True by done.
    rewrite list_find_cons_eq, decide_True by done. eauto.
  - destruct (list_find P l) as [[i' x']|] eqn:Hl; [|done]. simpl. intros [= <- <-].
    destruct (IH _ eq_refl) as [j Hj]. rewrite filter_cons.
    destruct (decide (Q y)); [|eauto].
    rewrite list_find_cons_eq, decide_False, Hj by done. simpl. eauto.
Qed.

(** What [validateUser] checks, read both ways. *)
Lemma validateUser_Ok (payload : JwtPayload.t) (env : Env) (st : Store) (doc : User.t) :
  (validateUser payload env st).1 = Ok doc ↔
  document st (JwtPayload.sub payload) = Some doc
  ∧ User.isActive doc = true
  ∧ ∃ i session,
      list_find (λ s, UserSession.id s = JwtPayload.sessionId payload
                      ∧ UserSession.isActive s = true) (User.sessions doc)
      = Some (i, session)
      ∧ now env ≤ UserSession.expiresAt session.
Proof.
  unfold validateUser, findById, bind, ask, ret, throw.
  destruct (document st (JwtPayload.sub payload)) as [doc'|]; simpl;
    [|split; [done|by intros [? _]]].
  destruct (User.isActive doc') eqn:Hactive; simpl.
  - destruct (list_find _ _) as [[i session]|] eqn:Hfind.
    + case_bool_decide as Hexp; simpl; split.
      * done.
      * intros ([= ->] & _ & i' & s' & Hfind' & Hlive). rewrite Hfind in Hfind'.
        injection Hfind' as <- <-. lia.
      * intros [= ->]. split_and!; [done|done|]. exists i, session. split; [done|lia].
      * by intros ([= ->] & _).
    + split; [done|]. intros ([= ->] & _ & i' & s' & Hfind' & _). congruence.
  - split; [done|]. intros ([= ->] & Hact & _). congruence.
Qed.

(** X5.  Logging out of one session does not log out another: a payload
    that [validateUser] accepts is still accepted after [logout] of a
    different, non-empty session id, whoever the logout is for. *)
Theorem logout_keeps_other_sessions
    (env env' : Env) (st : Store) (userId sessionId : string)
    (payload : JwtPayload.t) (doc : User.t)
    (Hsid : sessionId ≠ "")
    (Hother : JwtPayload.sessionId payload ≠ sessionId)
    (Hvalid : (validateUser payload env' st).1 = Ok doc) :
  ∃ doc',
    (validateUser payload env' (logout userId (Some sessionId) env st).2).1 = Ok doc'
    ∧ User._id doc' = User._id doc.
Proof.
  apply validateUser_Ok in Hvalid as (Hdoc & Hactive & i & session & Hfind & Hlive).
  rewrite logout_store.
  destruct (decide (userId = JwtPayload.sub payload)) as [->|Hne].
  - rewrite Hdoc. simpl. apply String.eqb_neq in Hsid as ->. simpl.
    pose proof Hfind as (_ & [Hid _] & _)%list_find_Some.
    destruct (list_find_filter_keep _ (λ s, UserSession.id s ≠ sessionId) _ _ _ Hfind)
      as [j Hj]; [congruence|].
    exists (User.set_sessions
              (filter (λ s, UserSession.id s ≠ sessionId) (User.sessions doc)) doc).
    split; [|done]. apply validateUser_Ok.
    split_and!; [by apply document_filed|done|]. simpl. eauto.
  - exists doc. split; [|done]. apply validateUser_Ok.
    destruct (document st userId) as [other|];
      [rewrite document_insert_ne by done|]; split_and!; eauto.
Qed.

Lemma logout_all_clears
    (env : Env) (st : Store) (userId : string) (sessionId : option string) (doc : User.t)
    (Hall : truthy sessionId = false)
    (Hdoc : document st userId = Some doc) :
  ∃ doc',
    logout userId sessionId env st = (Ok tt, <[userId := doc']> st)
    ∧ document (<[userId := doc']> st) userId = Some doc'
    ∧ User.sessions doc' = []
    ∧ ∀ payload env',
        JwtPayload.sub payload = userId →
        ∃ message,
          (validateUser payload env' (<[userId := doc']> st)).1
          = Throw (UnauthorizedException message).
Proof.
  exists (User.set_sessions [] doc).
  assert (Hfiled : document (<[userId := User.set_sessions [] doc]> st) userId
                   = Some (User.set_sessions [] doc)) by (by apply document_filed).
  split_and!; [|done|done|].
  - pose proof Hdoc as [_ Hid]%document_Some.
    unfold_service. rewrite Hdoc, Hall. simpl. by rewrite Hid.
  - intros payload env' <-. unfold validateUser, findById, bind, ask, ret, throw.
    rewrite Hfiled. simpl. destruct (User.isActive doc); simpl; eauto.
Qed.

(** X6.  [logout] without a session id, or with an empty one, empties the
    user's session list: afterwards [validateUser] rejects every payload of
    that user. *)
Theorem logout_without_session_clears
    (env : Env) (st : Store) (userId : string) (sessionId : option string) (doc : User.t)
    (Hall : truthy sessionId = false)
    (Hdoc : document st userId = Some doc) :
  ∃ doc',
    logout userId sessionId env st = (Ok tt, <[userId := doc']> st)
    ∧ document (<[userId := doc']> st) userId = Some doc'
    ∧ User.sessions doc' = []
    ∧ ∀ payload env',
        JwtPayload.sub payload = userId →
        ∃ message,
          (validateUser payload env' (<[userId := doc']> st)).1
          = Throw (UnauthorizedException message).
Proof. by apply (logout_all_clears env st userId sessionId doc). Qed.

(** X7.  A second [logout] with the same arguments changes nothing more,
    and [logout] never touches the document of another user. *)
Theorem logout_idempotent_and_local
    (env env2 : Env) (st : Store) (userId : string) (sessionId : option string) :
  (logout userId sessionId env2 (logout userId sessionId env st).2).2
  = (logout userId sessionId env st).2
  ∧ ∀ other, other ≠ userId →
      document (logout userId sessionId env st).2 other = document st other.
Proof.
  rewrite !logout_store.
  destruct (document st userId) as [doc|] eqn:Hdoc.
  - split; [|intros other Hother; by apply document_insert_ne].
    rewrite document_filed by done. simpl. rewrite insert_insert_eq. f_equal.
    destruct (truthy sessionId); [|done].
    rewrite filter_Forall_id; [done|].
    apply Forall_forall. by intros s [Hs _]%list_elem_of_filter.
  - by rewrite Hdoc.
Qed.

(** X8.  [terminateSession] with the id of one of the user's sessions
    returns, the saved list is the old one without the sessions of that
    id, and [validateUser] rejects a payload that names the id. *)
Theorem terminateSession_removes
    (env : Env) (st : Store) (user : UserRef) (userId sessionId : string) (doc : User.t)
    (Hid : userIdOf user = Some userId)
    (Hdoc : document st userId = Some doc)
    (Hsome : Exists (λ s, UserSession.id s = sessionId) (User.sessions doc)) :
  let doc' :=
    User.set_sessions (filter (λ s, UserSession.id s ≠ sessionId) (User.sessions doc)) doc in
  terminateSession user sessionId env st
  = (Ok "Session terminated successfully", <[userId := doc']> st)
  ∧ document (<[userId := doc']> st) userId = Some doc'
  ∧ ∀ payload env',
      JwtPayload.sub payload = userId →
      JwtPayload.sessionId payload = sessionId →
      ∃ message,
        (validateUser payload env' (<[userId := doc']> st)).1
        = Throw (UnauthorizedException message).
Proof.
  intros doc'.
  assert (Hfiled : document (<[userId := doc']> st) userId = Some doc')
    by (by apply document_filed).
  split_and!; [|done|].
  - pose proof Hdoc as [_ Hkey]%document_Some.
    unfold_service. rewrite Hid, Hdoc.
    rewrite bool_decide_eq_false_2.
    + simpl. by rewrite Hkey.
    + apply Exists_exists in Hsome as (s & Hs & Hsid).
      pose proof (length_filter_lt (λ s, UserSession.id s ≠ sessionId) _ s Hs).
      intros Hlen. rewrite Hlen in *. naive_solver lia.
  - intros payload env' <- <-. unfold validateUser, findById, bind, ask, ret, throw.
    rewrite Hfiled. simpl. destruct (User.isActive doc); simpl; [|eauto].
    rewrite list_find_removed. eauto.
Qed.


(** ** The session listing *)

(** X10.  [getUserSessions] saves what it lists: afterwards the user's
    document holds the sessions that were active and unexpired, in their
    order, the listing is that list with the tokens hidden, and the other
    sessions, expired or inactive, are gone from the store. *)
Theorem getUserSessions_purges
    (env : Env) (st : Store) (user : UserRef) (userId : string) (doc : User.t)
    (Hid : userIdOf user = Some userId)
    (Hdoc : document st userId = Some doc) :
  let kept :=
    filter (λ session, UserSession.isActive session = true
                       ∧ now env < UserSession.expiresAt session) (User.sessions doc) in
  getUserSessions user env st
  = (Ok (hide_refreshToken <$> kept), <[userId := User.set_sessions kept doc]> st)
  ∧ document (<[userId := User.set_sessions kept doc]> st) userId
    = Some (User.set_sessions kept doc).
Proof.
  intros kept. split; [|by apply document_filed].
  pose proof Hdoc as [Hlookup Hkey]%document_Some.
  unfold_service. rewrite Hid, Hdoc. fold kept.
  case_bool_decide as Hlen; simpl.
  - by rewrite Hkey.
  - subst kept. rewrite (filter_length_id _ _ Hlen), set_sessions_id.
    by rewrite insert_id.
Qed.

(** ** [cleanupExpiredSessions] *)

Lemma cleanupExpiredSessions_store (env : Env) (st : Store) :
  cleanupExpiredSessions env st
  = (Ok tt,
     (λ doc, User.set_sessions
               (filter (λ s, now env ≤ UserSession.expiresAt s) (User.sessions doc)) doc)
       <$> st).
Proof.
  unfold cleanupExpiredSessions, try_catch. f_equal.
  apply map_fmap_ext. intros key doc _.
  assert (Hsame : filter (λ s, ¬ UserSession.expiresAt s < now env) (User.sessions doc)
                  = filter (λ s, now env ≤ UserSession.expiresAt s) (User.sessions doc))
    by (apply list_filter_iff; intros s; lia).
  case_bool_decide as Hexpired; [by rewrite Hsame|].
  rewrite filter_Forall_id, set_sessions_id; [done|].
  apply Forall_forall. intros s Hs.
  destruct (decide (now env ≤ UserSession.expiresAt s)) as [|Hlt]; [done|].
  exfalso. apply Hexpired, Exists_exists. exists s. split; [done|lia].
Qed.

Lemma cleanupExpiredSessions_document (env : Env) (st : Store) (id : string) :
  document (cleanupExpiredSessions env st).2 id
  = (λ doc, User.set_sessions
              (filter (λ s, now env ≤ UserSession.expiresAt s) (User.sessions doc))
              doc) <$> document st id.
Proof.
  rewrite cleanupExpiredSessions_store. simpl. unfold document. rewrite lookup_fmap.
  destruct (st !! id) as [doc|]; [|done]. simpl. by case_bool_decide.
Qed.

(** X11.  [cleanupExpiredSessions] returns normally; in every document it
    leaves the sessions with [expiresAt] not before the instant of the
    sweep, in their order, and nothing else changes; a second sweep at the
    same instant changes nothing. *)
Theorem cleanupExpiredSessions_sweeps (env : Env) (st : Store) :
  (cleanupExpiredSessions env st).1 = Ok tt
  ∧ (∀ id,
       document (cleanupExpiredSessions env st).2 id
       = (λ doc, User.set_sessions
                   (filter (λ s, now env ≤ UserSession.expiresAt s) (User.sessions doc))
                   doc) <$> document st id)
  ∧ (cleanupExpiredSessions env (cleanupExpiredSessions env st).2).2
    = (cleanupExpiredSessions env st).2.
Proof.
  rewrite !cleanupExpiredSessions_store. simpl. split_and!; [done| |].
  - intros id. unfold document. rewrite lookup_fmap.
    destruct (st !! id) as [doc|]; [|done]. simpl. by case_bool_decide.
  - rewrite <- map_fmap_compose. apply map_fmap_ext. intros key doc _.
    destruct doc as [id phone email role active sessions]. unfold User.set_sessions.
    simpl. f_equal. apply filter_Forall_id, Forall_forall.
    by intros s [Hs _]%list_elem_of_filter.
Qed.

(** X12.  A sweep never revokes a session that is still good: a payload
    that [validateUser] accepts at an instant is accepted at that instant
    after a sweep that ran no later. *)
Theorem cleanupExpiredSessions_keeps_live
    (env env' : Env) (st : Store) (payload : JwtPayload.t) (doc : User.t)
    (Hvalid : (validateUser payload env' st).1 = Ok doc)
    (Hbefore : now env ≤ now env') :
  ∃ doc', (validateUser payload env' (cleanupExpiredSessions env st).2).1 = Ok doc'
          ∧ User._id doc' = User._id doc.
Proof.
  apply validateUser_Ok in Hvalid as (Hdoc & Hactive & i & session & Hfind & Hlive).
  pose proof (cleanupExpiredSessions_document env st) as Hswept.
  exists (User.set_sessions
            (filter (λ s, now env ≤ UserSession.expiresAt s) (User.sessions doc)) doc).
  split; [|done]. apply validateUser_Ok. rewrite Hswept, Hdoc. split_and!; [done|done|].
  destruct (list_find_filter_keep _ (λ s, now env ≤ UserSession.expiresAt s) _ _ _ Hfind)
    as [j Hj]; [simpl; lia|].
  exists j, session. by split.
Qed.

(** ** The guard and the controller *)

Lemma canActivate_reads (isPublic : bool) (bearer : option Jwt) (env : Env) (st : Store) :
  (canActivate isPublic bearer env st).2 = st.
Proof.
  pose proof (validateUser_reads) as Hreads.
  unfold canActivate, authenticate, validate, bind, ask, ret, try_catch, throw.
  destruct bearer as [token|]; [|by destruct isPublic].
  destruct (jwt_verify _ _ _) as [payload|]; [|by destruct isPublic].
  specialize (Hreads payload env st).
  destruct (validateUser payload env st) as [[doc|e] st']; simpl in *; subst;
    by destruct isPublic.
Qed.

(** What it takes for the guard to attach a user. *)
Lemma canActivate_attached (isPublic : bool) (bearer : option Jwt) (env : Env)
    (st : Store) (attached : NormalizedUser) :
  (canActivate isPublic bearer env st).1 = Ok (Some attached) →
  ∃ token payload doc,
    bearer = Some token
    ∧ jwt_verify (JWT_SECRET (cfg env)) (now env) token = Some payload
    ∧ (validateUser payload env st).1 = Ok doc
    ∧ attached = {| nu_userId := User._id doc; nu__id := User._id doc;
                    nu_id := User._id doc; nu_sub := JwtPayload.sub payload;
                    nu_sessionId := JwtPayload.sessionId payload;
                    nu_email := User.email doc; nu_phoneNumber := User.phoneNumber doc;
                    nu_role := User.role doc; nu_isActive := User.isActive doc |}.
Proof.
  unfold canActivate, authenticate, validate, bind, ask, ret, try_catch, throw.
  destruct bearer as [token|]; [|by destruct isPublic].
  destruct (jwt_verify _ _ _) as [payload|] eqn:Hverify; [|by destruct isPublic].
  destruct (validateUser payload env st) as [[doc|e] st'] eqn:Hvalid; simpl;
    [|by destruct isPublic].
  intros Hattached. exists token, payload, doc.
  split_and!; [done|done|by rewrite Hvalid|].
  destruct isPublic; simpl in Hattached; congruence.
Qed.

(** X13.  The user the guard attaches is the stored one: all its id fields
    are the subject of the token, its session id is the token's, and its
    role, e-mail and phone number are those of the document, which is
    active, not those signed into the token. *)
Theorem guard_attaches_stored_identity
    (isPublic : bool) (bearer : option Jwt) (env : Env) (st : Store)
    (attached : NormalizedUser)
    (Hattached : (canActivate isPublic bearer env st).1 = Ok (Some attached)) :
  ∃ token payload doc,
    bearer = Some token
    ∧ jwt_verify (JWT_SECRET (cfg env)) (now env) token = Some payload
    ∧ document st (JwtPayload.sub payload) = Some doc
    ∧ nu_userId attached = JwtPayload.sub payload
    ∧ nu__id attached = JwtPayload.sub payload
    ∧ nu_id attached = JwtPayload.sub payload
    ∧ nu_sub attached = JwtPayload.sub payload
    ∧ nu_sessionId attached = JwtPayload.sessionId payload
    ∧ nu_role attached = User.role doc
    ∧ nu_email attached = User.email doc
    ∧ nu_phoneNumber attached = User.phoneNumber doc
    ∧ nu_isActive attached = true.
Proof.
  apply canActivate_attached in Hattached as (token & payload & doc & -> & Hverify & Hvalid & ->).
  apply validateUser_Ok in Hvalid as (Hdoc & Hactive & _).
  pose proof Hdoc as [_ Hkey]%document_Some.
  exists token, payload, doc. by split_and!.
Qed.

(** X14.  The guard only reads the store, and on a public route it never
    ends the request, whatever the token. *)
Theorem guard_reads_and_public_passes (bearer : option Jwt) (env : Env) (st : Store) :
  (∀ isPublic, (canActivate isPublic bearer env st).2 = st)
  ∧ ∃ attached, (canActivate true bearer env st).1 = Ok attached.
Proof.
  split; [intros; apply canActivate_reads|].
  unfold canActivate, authenticate, validate, bind, ask, ret, try_catch, throw.
  destruct bearer as [token|]; [|by eexists].
  destruct (jwt_verify _ _ _) as [payload|]; [|by eexists].
  destruct (validateUser payload env st) as [[doc|e] st']; simpl; by eexists.
Qed.

(** X15.  The logout endpoint ends every session of the caller, not only
    the one of the token: the user the guard attached has an [_id], so the
    controller passes no session id, and afterwards [validateUser] rejects
    every payload of that user. *)
Theorem logout_endpoint_ends_all_sessions
    (bearer : option Jwt) (env env2 : Env) (st : Store) (attached : NormalizedUser)
    (Hattached : (canActivate false bearer env st).1 = Ok (Some attached)) :
  ∃ doc',
    AuthController.logout (StrategyUser attached) env2 st
    = (Ok tt, <[nu_userId attached := doc']> st)
    ∧ document (<[nu_userId attached := doc']> st) (nu_userId attached) = Some doc'
    ∧ User.sessions doc' = []
    ∧ ∀ payload env',
        JwtPayload.sub payload = nu_userId attached →
        ∃ message,
          (validateUser payload env' (<[nu_userId attached := doc']> st)).1
          = Throw (UnauthorizedException message).
Proof.
  apply canActivate_attached in Hattached
    as (token & payload & doc & -> & Hverify & Hvalid & ->).
  apply validateUser_Ok in Hvalid as (Hdoc & _).
  pose proof Hdoc as [_ Hkey]%document_Some. simpl. rewrite Hkey.
  by apply (logout_all_clears env2 st (JwtPayload.sub payload) None doc).
Qed.

Lemma validateUser_without_sessions (st : Store) (doc : User.t)
    (payload : JwtPayload.t) (env : Env) :
  document st (JwtPayload.sub payload) = Some doc →
  User.sessions doc = [] →
  ∃ message, (validateUser payload env st).1 = Throw (UnauthorizedException message).
Proof.
  intros Hdoc Hempty. unfold validateUser, findById, bind, ask, ret, throw.
  rewrite Hdoc. simpl. destruct (User.isActive doc); simpl; [|eauto].
  rewrite Hempty. simpl. eauto.
Qed.

(** X16.  The endpoint that terminates all other sessions terminates the
    caller's session too: the attached user carries no [sessions], so no
    session id is kept, the saved list is empty and [validateUser] rejects
    every payload of that user. *)
Theorem terminateAllSessions_endpoint_ends_all_sessions
    (bearer : option Jwt) (env env2 : Env) (st : Store) (attached : NormalizedUser)
    (Hattached : (canActivate false bearer env st).1 = Ok (Some attached)) :
  ∃ doc',
    AuthController.terminateAllSessions (StrategyUser attached) env2 st
    = (Ok "All other sessions terminated successfully",
       <[nu_userId attached := doc']> st)
    ∧ document (<[nu_userId attached := doc']> st) (nu_userId attached) = Some doc'
    ∧ User.sessions doc' = []
    ∧ ∀ payload env',
        JwtPayload.sub payload = nu_userId attached →
        ∃ message,
          (validateUser payload env' (<[nu_userId attached := doc']> st)).1
          = Throw (UnauthorizedException message).
Proof.
  apply canActivate_attached in Hattached
    as (token & payload & doc & -> & Hverify & Hvalid & ->).
  apply validateUser_Ok in Hvalid as (Hdoc & _).
  pose proof Hdoc as [_ Hkey]%document_Some. simpl. rewrite Hkey.
  assert (Hfiled : document (<[JwtPayload.sub payload := User.set_sessions [] doc]> st)
                     (JwtPayload.sub payload) = Some (User.set_sessions [] doc))
    by (by apply document_filed).
  exists (User.set_sessions [] doc). split_and!; [|done|done|].
  - unfold AuthController.terminateAllSessions, userRefOf.
    unfold terminateAllSessions, findByRef, findById, save, try_catch, bind, ret, throw.
    cbn [nu__id nu_id nu_sub].
    assert (userIdOf {| ref__id := Some (JwtPayload.sub payload);
                        ref_id := Some (JwtPayload.sub payload);
                        ref_sub := Some (JwtPayload.sub payload) |}
            = Some (JwtPayload.sub payload)) as ->
      by (unfold userIdOf; simpl; by destruct (negb _)).
    rewrite Hdoc. simpl. by rewrite Hkey.
  - intros payload' env' Hsub. rewrite <- Hsub in Hfiled |- *.
    by apply (validateUser_without_sessions _ (User.set_sessions [] doc)).
Qed.

(** ** Login, refresh and the two kinds of token *)

(** X17.  A login throws before it saves anything when the JWT library
    rejects a configured lifetime, and otherwise returns and saves; what it
    saves never holds more than ten sessions nor an expired one, and holds
    no session that is not an old one or the one it mints, whose deadline
    is then a valid date after its creation. *)
Theorem login_bounds_sessions
    (user : User.t) (req : option Request) (env : Env) (st : Store) :
  (¬ signs (cfg env) →
   generateTokens user req None env st = (Throw TimespanError, st))
  ∧ (signs (cfg env) →
     ∃ tokens user',
       generateTokens user req None env st
         = (Ok (tokens, user'), <[User._id user := user']> st)
       ∧ (length (User.sessions user') ≤ 10)%nat
       ∧ Forall (λ s, now env < UserSession.expiresAt s) (User.sessions user')
       ∧ Forall (λ s, s ∈ User.sessions user
                      ∨ (s = newSession env req (Tokens.refreshToken tokens)
                         ∧ valid_date (UserSession.expiresAt s)
                         ∧ UserSession.createdAt s < UserSession.expiresAt s))
                (User.sessions user')).
Proof.
  split; [apply generateTokens_rejected|].
  intros [[access Haccess] [refresh Hrefresh]].
  eexists _, _. split; [by apply (generateTokens_login _ _ _ _ access refresh)|].
  cbn [User.sessions User.set_sessions]. split_and!.
  - apply purged_and_capped_length.
  - apply Forall_forall. intros s Hs. by apply purged_and_capped_elem in Hs as [? _].
  - apply Forall_forall. intros s Hs.
    apply purged_and_capped_elem in Hs as [Hlive Hin].
    apply elem_of_app in Hin as [Hin|Hin]; [by left|right].
    unfold new_Date in Hin. case_bool_decide as Hdate; [|by apply elem_of_nil in Hin].
    apply list_elem_of_singleton in Hin as ->. split_and!; [done|done|].
    simpl in *. lia.
Qed.

(** X18.  Session ids stay unique through a login, provided the id drawn is
    not already in the list: the login saves nothing when the JWT library
    rejects a configured lifetime, and otherwise a list without repeated
    ids. *)
Theorem login_preserves_unique_ids
    (user : User.t) (req : option Request) (env : Env) (st : Store)
    (Hnodup : NoDup (UserSession.id <$> User.sessions user))
    (Hfresh : randomUUID env ∉ UserSession.id <$> User.sessions user) :
  (¬ signs (cfg env) →
   generateTokens user req None env st = (Throw TimespanError, st))
  ∧ (signs (cfg env) →
     ∃ tokens user',
       generateTokens user req None env st
         = (Ok (tokens, user'), <[User._id user := user']> st)
       ∧ NoDup (UserSession.id <$> User.sessions user')).
Proof.
  split; [apply generateTokens_rejected|].
  intros [[access Haccess] [refresh Hrefresh]].
  eexists _, _. split; [by apply (generateTokens_login _ _ _ _ access refresh)|].
  cbn [User.sessions User.set_sessions].
  apply login_keeps_ids_unique; [done|done|].
  destruct (new_Date _); eauto.
Qed.

(** The session a payload for the fresh id finds after a login is the one
    the login minted. *)
Lemma login_finds_newSession (env : Env) (user : User.t) (req : option Request)
    (token : Jwt) :
  0 < expirationMs env →
  (length (not_older env user) < 10)%nat →
  randomUUID env ∉ UserSession.id <$> User.sessions user →
  ∃ i,
    list_find (λ s, UserSession.id s = randomUUID env ∧ UserSession.isActive s = true)
              (sessions_after_login env user req token)
    = Some (i, newSession env req token).
Proof.
  intros Hlifetime Hrank Hfresh.
  pose proof (newSession_kept env user req token Hlifetime Hrank) as Hkept.
  destruct (list_find_elem_of
              (λ s, UserSession.id s = randomUUID env ∧ UserSession.isActive s = true)
              _ _ Hkept) as [[i s] Hfind]; [done|].
  exists i. rewrite Hfind. do 2 f_equal.
  pose proof Hfind as (Hi & [Hid _] & _)%list_find_Some.
  apply list_elem_of_lookup_2, purged_and_capped_elem in Hi as [_ Hin].
  apply elem_of_app in Hin as [Hold|Hnew%list_elem_of_singleton]; [|done].
  exfalso. apply Hfresh. rewrite <- Hid. by apply list_elem_of_fmap_2.
Qed.

(** X19.  The access token of a login is accepted by the guard of a
    protected route for as long as it verifies and the session lasts: the
    user attached has the id of the user and the session id just minted.
    The JWT library accepts the configured lifetimes, the deadline of the
    session is a valid date, the user is active, the id drawn is new, and
    the login kept its session. *)
Theorem login_then_guard_accepts
    (user : User.t) (req : option Request) (env env' : Env) (st : Store)
    (access refresh : Z)
    (Hactive : User.isActive user = true)
    (Haccepted : accessLifetime (cfg env) = Some access)
    (Haccepted' : refreshLifetime (cfg env) = Some refresh)
    (Hdate : valid_date (now env + expirationMs env))
    (Hlifetime : 0 < expirationMs env)
    (Hrank : (length (not_older env user) < 10)%nat)
    (Hfresh : randomUUID env ∉ UserSession.id <$> User.sessions user)
    (Hcfg : cfg env' = cfg env)
    (Haccess : now env' `div` 1000 < now env `div` 1000 + access)
    (Hdeadline : now env' ≤ now env + expirationMs env) :
  ∃ tokens user' attached,
    generateTokens user req None env st
      = (Ok (tokens, user'), <[User._id user := user']> st)
    ∧ canActivate false (Some (Tokens.accessToken tokens)) env'
        (<[User._id user := user']> st)
      = (Ok (Some attached), <[User._id user := user']> st)
    ∧ nu_userId attached = User._id user
    ∧ nu_sessionId attached = randomUUID env.
Proof.
  set (tokens := tokens_for env access refresh user (randomUUID env)).
  destruct (login_finds_newSession env user req (Tokens.refreshToken tokens)
              Hlifetime Hrank Hfresh) as [i Hfind].
  set (user' := User.set_sessions
                  (sessions_after_login env user req (Tokens.refreshToken tokens)) user).
  assert (Hvalid : (validateUser (payload_for user (randomUUID env)) env'
                      (<[User._id user := user']> st)).1 = Ok user').
  { apply validateUser_Ok. split_and!; [apply document_save_sessions|done|].
    eexists i, _. split; [exact Hfind|]. simpl. lia. }
  edestruct (guard_on_authentication_success false (Tokens.accessToken tokens))
    as (attached & Hguard & Hid & Hsid); [|exact Hvalid|].
  { simpl. rewrite Hcfg, bool_decide_eq_true_2 by done. simpl.
    by rewrite (proj2 (Z.ltb_lt _ _) Haccess). }
  exists tokens, user', attached.
  split_and!; [by apply generateTokens_login_valid|done|done|done].
Qed.

(** X20.  The refresh token of a login is accepted by [refreshToken] for
    as long as it verifies and the session lasts, and the tokens returned
    carry the session id of the login.  The JWT library accepts the
    configured lifetimes, the deadline of the session is a valid date, the
    user is active, session ids are unique, the id drawn is new and not
    empty, and the login kept its session. *)
Theorem login_then_refresh_accepts
    (user : User.t) (req req' : option Request) (env env' : Env) (st : Store)
    (access refresh : Z)
    (Hactive : User.isActive user = true)
    (Haccepted : accessLifetime (cfg env) = Some access)
    (Haccepted' : refreshLifetime (cfg env) = Some refresh)
    (Hdate : valid_date (now env + expirationMs env))
    (Hlifetime : 0 < expirationMs env)
    (Hrank : (length (not_older env user) < 10)%nat)
    (Hnodup : NoDup (UserSession.id <$> User.sessions user))
    (Hfresh : randomUUID env ∉ UserSession.id <$> User.sessions user)
    (Huuid : randomUUID env ≠ "")
    (Hcfg : cfg env' = cfg env)
    (Hrefresh : now env' `div` 1000 < now env `div` 1000 + refresh)
    (Hdeadline : now env' ≤ now env + expirationMs env) :
  ∃ tokens user' refreshed_tokens user'',
    generateTokens user req None env st
      = (Ok (tokens, user'), <[User._id user := user']> st)
    ∧ refreshToken (Tokens.refreshToken tokens) req' env' (<[User._id user := user']> st)
      = (Ok refreshed_tokens, <[User._id user := user'']> st)
    ∧ JwtPayload.sessionId <$> jwt_decode (AuthTokens.accessToken refreshed_tokens)
      = Some (randomUUID env)
    ∧ JwtPayload.sessionId <$> jwt_decode (AuthTokens.refreshToken refreshed_tokens)
      = Some (randomUUID env).
Proof.
  set (tokens := tokens_for env access refresh user (randomUUID env)).
  destruct (login_finds_newSession env user req (Tokens.refreshToken tokens)
              Hlifetime Hrank Hfresh) as [i Hfind].
  set (new := newSession env req (Tokens.refreshToken tokens)) in *.
  set (user' := User.set_sessions
                  (sessions_after_login env user req (Tokens.refreshToken tokens)) user).
  eexists tokens, user', _, _.
  split; [by apply generateTokens_login_valid|].
  rewrite (refreshToken_accepted_unique env' _ _ req' (payload_for user (randomUUID env))
             user' i new access refresh).
  - split; [simpl; by rewrite insert_insert_eq|]. by split.
  - simpl. rewrite Hcfg, bool_decide_eq_true_2 by done. simpl.
    by rewrite (proj2 (Z.ltb_lt _ _) Hrefresh).
  - apply document_save_sessions.
  - done.
  - apply locate_session_Some. left. by split.
  - simpl. lia.
  - done.
  - cbn [User.sessions User.set_sessions user'].
    apply (login_keeps_ids_unique env user [new]); [done|done|]. right. by exists new.
  - by rewrite Hcfg.
  - by rewrite Hcfg.
Qed.

(** X21.  With two different secrets the two kinds of token do not stand
    in for each other: [refreshToken] refuses an access token and leaves
    the store alone, and the guard of a protected route and the gateway
    refuse a refresh token. *)
Theorem token_kinds_not_interchangeable
    (user : User.t) (sessionId : string) (minted env : Env) (access refresh : Z)
    (st : Store) (req : option Request) (h : Handshake) (clientId : string)
    (gw : Gateway.t)
    (Hcfg : cfg minted = cfg env)
    (Hsecrets : JWT_SECRET (cfg env) ≠ JWT_REFRESH_SECRET (cfg env))
    (Hhandshake :
       handshake_token h
       = Some (Tokens.refreshToken (tokens_for minted access refresh user sessionId))) :
  refreshToken (Tokens.accessToken (tokens_for minted access refresh user sessionId))
    req env st
  = (Throw (UnauthorizedException "Invalid refresh token"), st)
  ∧ canActivate false
      (Some (Tokens.refreshToken (tokens_for minted access refresh user sessionId))) env st
    = (Throw (UnauthorizedException "Access token required"), st)
  ∧ handleConnection (cfg env) (now env) clientId h gw
    = ([emit_error "Invalid or expired token"; disconnect], gw).
Proof.
  split_and!.
  - unfold refreshToken, try_catch, bind, ask, throw. simpl. rewrite Hcfg.
    by rewrite bool_decide_eq_false_2.
  - unfold canActivate, authenticate, bind, ask, ret, throw. simpl. rewrite Hcfg.
    by rewrite bool_decide_eq_false_2.
  - unfold handleConnection. rewrite Hhandshake. simpl. rewrite Hcfg.
    by rewrite bool_decide_eq_false_2.
Qed.

(** [generateTokens] returns whenever the JWT library accepts the
    lifetimes. *)
Lemma generateTokens_returns (user : User.t) (req : option Request)
    (existingSessionId : option string) (env : Env) (st : Store) :
  signs (cfg env) →
  ∃ result st', generateTokens user req existingSessionId env st = (Ok result, st').
Proof.
  intros [[access Haccess] [refresh Hrefresh]].
  unfold generateTokens, bind, ask, save, ret, jwt_sign. rewrite Haccess, Hrefresh.
  destruct (negb (truthy existingSessionId)); simpl; [by eexists _, _|].
  destruct (list_find _ _) as [[i s]|]; by eexists _, _.
Qed.

(** The ways through [refreshToken]: it throws with the store untouched,
    or it has located a session, which is expired and purged, or else
    touched and saved before [generateTokens] is asked for the tokens. *)
Lemma refreshToken_cases (token : Jwt) (req : option Request) (env : Env) (st : Store) :
  refreshToken token req env st
  = (Throw (UnauthorizedException "Invalid refresh token"), st)
  ∨ ∃ payload doc i session,
      jwt_verify (JWT_REFRESH_SECRET (cfg env)) (now env) token = Some payload
      ∧ document st (JwtPayload.sub payload) = Some doc
      ∧ User.isActive doc = true
      ∧ locate_session payload token (User.sessions doc) = Some (i, session)
      ∧ ((UserSession.expiresAt session < now env
          ∧ refreshToken token req env st
            = (Throw (UnauthorizedException "Invalid refresh token"),
               <[JwtPayload.sub payload :=
                   User.set_sessions
                     (filter (λ s, UserSession.id s ≠ UserSession.id session)
                             (User.sessions doc)) doc]> st))
         ∨ (now env ≤ UserSession.expiresAt session
            ∧ let touched_doc :=
                User.set_sessions (alter (touched env req) i (User.sessions doc)) doc in
              refreshToken token req env st
              = match generateTokens touched_doc req (Some (UserSession.id session)) env
                        (<[JwtPayload.sub payload := touched_doc]> st) with
                | (Ok (tokens, user), st') =>
                    (Ok (AuthTokens.mk (Tokens.accessToken tokens)
                           (Tokens.refreshToken tokens) (toJSON user)), st')
                | (Throw _, st') =>
                    (Throw (UnauthorizedException "Invalid refresh token"), st')
                end)).
Proof.
  unfold refreshToken, try_catch, bind, ask, findById, throw, save, ret.
  destruct (jwt_verify _ _ _) as [payload|] eqn:Hverify; simpl; [|by left].
  destruct (document st (JwtPayload.sub payload)) as [doc|] eqn:Hdoc; simpl; [|by left].
  destruct (User.isActive doc) eqn:Hactive; simpl; [|by left].
  destruct (locate_session payload token (User.sessions doc)) as [[i session]|] eqn:Hlocate;
    simpl; [|by left].
  pose proof Hdoc as [_ Hkey]%document_Some.
  right. exists payload, doc, i, session. split_and!; try done.
  case_bool_decide as Hexpired; simpl.
  - left. split; [done|]. by rewrite Hkey.
  - right. split; [lia|]. fold (touched env req). rewrite Hkey.
    destruct (generateTokens _ _ _ _ _) as [[[tokens user]|e] st']; done.
Qed.

Lemma fmap_alter_same {A B} (f : A → B) (g : A → A) (i : nat) (l : list A) :
  (∀ x, f (g x) = f x) → f <$> alter g i l = f <$> l.
Proof.
  intros Hfg. apply list_eq. intros j. rewrite !list_lookup_fmap.
  destruct (decide (j = i)) as [->|Hne].
  - rewrite list_lookup_alter_eq. destruct (l !! i); simpl; by rewrite ?Hfg.
  - by rewrite list_lookup_alter_ne.
Qed.

(** X22.  A refresh does not move a deadline.  In a store whose sessions
    have ids, as the schema requires, every [refreshToken] that returns has
    located a session, by the session id of the token or by the value of
    the token, and has saved the document of the user with the [expiresAt],
    the [createdAt] and the id of every session as they were; the session
    located is in its place, with the instant of the refresh as
    [lastActive]. *)
Theorem refresh_keeps_deadline
    (token : Jwt) (req : option Request) (env : Env) (st st' : Store)
    (result : AuthTokens.t)
    (Hschema : sessions_have_ids st)
    (Hok : refreshToken token req env st = (Ok result, st')) :
  ∃ payload doc i session doc' session',
    jwt_verify (JWT_REFRESH_SECRET (cfg env)) (now env) token = Some payload
    ∧ document st (JwtPayload.sub payload) = Some doc
    ∧ (located_by_id payload (User.sessions doc) i session
       ∨ located_by_token payload token (User.sessions doc) i session)
    ∧ st' = <[JwtPayload.sub payload := doc']> st
    ∧ document st' (JwtPayload.sub payload) = Some doc'
    ∧ UserSession.expiresAt <$> User.sessions doc'
      = UserSession.expiresAt <$> User.sessions doc
    ∧ UserSession.createdAt <$> User.sessions doc'
      = UserSession.createdAt <$> User.sessions doc
    ∧ UserSession.id <$> User.sessions doc' = UserSession.id <$> User.sessions doc
    ∧ User.sessions doc' !! i = Some session'
    ∧ UserSession.lastActive session' = now env.
Proof.
  destruct (refreshToken_cases token req env st)
    as [Hthrow|(payload & doc & i & session & Hverify & Hdoc & Hactive & Hlocated & Hcase)];
    [congruence|].
  destruct Hcase as [[_ Hthrow]|[Hlive _]]; [congruence|].
  pose proof (locate_session_elem _ _ _ _ _ Hlocated) as [Hi _].
  assert (Hid : UserSession.id session ≠ "").
  { apply document_Some in Hdoc as [Hfiled _].
    specialize (Hschema _ _ Hfiled). rewrite Forall_forall in Hschema.
    by eapply Hschema, list_elem_of_lookup_2. }
  destruct (accessLifetime (cfg env)) as [access|] eqn:Haccess;
    [destruct (refreshLifetime (cfg env)) as [refresh|] eqn:Hrefresh|].
  - destruct (refreshToken_accepted env st token req payload doc i session access refresh)
      as (k & Hk & Haccepted); try done.
    rewrite Haccepted in Hok. injection Hok as <- <-.
    assert (Hat : ∃ session',
               alter (rotated env
                        (Tokens.refreshToken
                           (tokens_for env access refresh doc (UserSession.id session))))
                     k (alter (touched env req) i (User.sessions doc)) !! i
               = Some session'
               ∧ UserSession.lastActive session' = now env).
    { destruct (decide (k = i)) as [->|Hne].
      - eexists. by rewrite !list_lookup_alter_eq, Hi.
      - eexists. rewrite list_lookup_alter_ne, list_lookup_alter_eq, Hi by done.
        split; [done|]. by destruct req. }
    destruct Hat as (session' & Hat & Hlast).
    exists payload, doc, i, session; eexists _, session'. split_and!.
    + done.
    + done.
    + by apply locate_session_Some.
    + done.
    + by apply document_filed.
    + cbn [User.sessions User.set_sessions].
      rewrite fmap_alter_same by done.
      by rewrite fmap_alter_same by (intros x; by destruct req).
    + cbn [User.sessions User.set_sessions].
      rewrite fmap_alter_same by done.
      by rewrite fmap_alter_same by (intros x; by destruct req).
    + cbn [User.sessions User.set_sessions].
      rewrite fmap_alter_same by done.
      by rewrite fmap_alter_same by (intros x; by destruct req).
    + exact Hat.
    + exact Hlast.
  - exfalso. revert Hok.
    unfold refreshToken, try_catch, bind, ask, findById, throw, save, ret.
    rewrite Hverify, Hdoc, Hactive. simpl. rewrite Hlocated.
    rewrite bool_decide_eq_false_2 by lia.
    rewrite generateTokens_rejected; [done|].
    unfold signs. rewrite Hrefresh. by intros [_ [? ?]].
  - exfalso. revert Hok.
    unfold refreshToken, try_catch, bind, ask, findById, throw, save, ret.
    rewrite Hverify, Hdoc, Hactive. simpl. rewrite Hlocated.
    rewrite bool_decide_eq_false_2 by lia.
    rewrite generateTokens_rejected; [done|].
    unfold signs. rewrite Haccess. by intros [[? ?] _].
Qed.

(** X23.  Every failure of [refreshToken] is the same
    [UnauthorizedException('Invalid refresh token')].  A failed call leaves
    the store as it was, unless it located a session: an expired one, which
    it removed, or one that it touched and saved before the JWT library
    rejected a configured lifetime. *)
Theorem refreshToken_failure
    (token : Jwt) (req : option Request) (env : Env) (st : Store) (e : Exception)
    (Hfails : (refreshToken token req env st).1 = Throw e) :
  e = UnauthorizedException "Invalid refresh token"
  ∧ ((refreshToken token req env st).2 = st
     ∨ ∃ payload doc i session,
         jwt_verify (JWT_REFRESH_SECRET (cfg env)) (now env) token = Some payload
         ∧ document st (JwtPayload.sub payload) = Some doc
         ∧ locate_session payload token (User.sessions doc) = Some (i, session)
         ∧ ((UserSession.expiresAt session < now env
             ∧ (refreshToken token req env st).2
               = <[JwtPayload.sub payload :=
                     User.set_sessions
                       (filter (λ s, UserSession.id s ≠ UserSession.id session)
                               (User.sessions doc)) doc]> st)
            ∨ (now env ≤ UserSession.expiresAt session
               ∧ ¬ signs (cfg env)
               ∧ (refreshToken token req env st).2
                 = <[JwtPayload.sub payload :=
                       User.set_sessions
                         (alter (touched env req) i (User.sessions doc)) doc]> st))).
Proof.
  destruct (refreshToken_cases token req env st)
    as [Hthrow|(payload & doc & i & session & Hverify & Hdoc & Hactive & Hlocated & Hcase)].
  { rewrite Hthrow in Hfails |- *. injection Hfails as <-. auto. }
  destruct Hcase as [[Hexpired Hthrow]|[Hlive Hcall]].
  { rewrite Hthrow in Hfails |- *. injection Hfails as <-. split; [done|].
    right. exists payload, doc, i, session. split_and!; try done. by left. }
  simpl in Hcall.
  destruct (decide (signs (cfg env))) as [Hsigns|Hsigns].
  - exfalso.
    destruct (generateTokens_returns
                (User.set_sessions (alter (touched env req) i (User.sessions doc)) doc)
                req (Some (UserSession.id session)) env
                (<[JwtPayload.sub payload :=
                     User.set_sessions (alter (touched env req) i (User.sessions doc))
                       doc]> st) Hsigns) as ([tokens user] & st' & Hreturns).
    rewrite Hreturns in Hcall. by rewrite Hcall in Hfails.
  - rewrite generateTokens_rejected in Hcall by done.
    rewrite Hcall in Hfails |- *. injection Hfails as <-. split; [done|].
    right. exists payload, doc, i, session. split_and!; try done. right. by split_and!.
Qed.

Lemma refreshed_fields (env : Env) (req : option Request) (token : Jwt)
    (s : UserSession.t) :
  UserSession.id (refreshed env req token s) = UserSession.id s
  ∧ UserSession.refreshToken (refreshed env req token s) = token
  ∧ UserSession.isActive (refreshed env req token s) = UserSession.isActive s.
Proof. unfold refreshed. by destruct req. Qed.

(** X30.  Where [refreshToken] finds the session under the value of the
    token, a superseded token is refused.  The token verifies, no active
    session has the session id of its payload, and it is stored with one
    active session, unexpired, in a list without repeated ids.  The refresh
    returns, the session stores the refresh token returned, another token,
    which carries the id of the session; presented again, the first token
    fails with [UnauthorizedException('Invalid refresh token')] and the
    store is left alone. *)
Theorem fallback_refuses_superseded_token
    (env env2 : Env) (st : Store) (token : Jwt) (req req2 : option Request)
    (payload : JwtPayload.t) (doc : User.t) (i : nat) (session : UserSession.t)
    (access refresh : Z)
    (Hverify : jwt_verify (JWT_REFRESH_SECRET (cfg env)) (now env) token = Some payload)
    (Hdoc : document st (JwtPayload.sub payload) = Some doc)
    (Hactive : User.isActive doc = true)
    (Hlocated : located_by_token payload token (User.sessions doc) i session)
    (Hlive : now env ≤ UserSession.expiresAt session)
    (Hid : UserSession.id session ≠ "")
    (Hnodup : NoDup (UserSession.id <$> User.sessions doc))
    (Honce : ∀ j s, User.sessions doc !! j = Some s →
                    UserSession.refreshToken s = token →
                    UserSession.isActive s = true → j = i)
    (Haccess : accessLifetime (cfg env) = Some access)
    (Hrefresh : refreshLifetime (cfg env) = Some refresh)
    (Hverify2 : jwt_verify (JWT_REFRESH_SECRET (cfg env2)) (now env2) token
                = Some payload) :
  ∃ first doc1 rotated,
    refreshToken token req env st = (Ok first, <[JwtPayload.sub payload := doc1]> st)
    ∧ User.sessions doc1 !! i = Some rotated
    ∧ UserSession.id rotated = UserSession.id session
    ∧ UserSession.refreshToken rotated = AuthTokens.refreshToken first
    ∧ AuthTokens.refreshToken first ≠ token
    ∧ JwtPayload.sessionId <$> jwt_decode (AuthTokens.refreshToken first)
      = Some (UserSession.id session)
    ∧ refreshToken token req2 env2 (<[JwtPayload.sub payload := doc1]> st)
      = (Throw (UnauthorizedException "Invalid refresh token"),
         <[JwtPayload.sub payload := doc1]> st).
Proof.
  pose proof Hlocated as [Hnot_by_id Hby_token].
  pose proof Hby_token as (Hi & [Hstored Hsession_active] & _)%list_find_Some.
  set (tokens := tokens_for env access refresh doc (UserSession.id session)).
  set (new := Tokens.refreshToken tokens).
  set (doc1 := User.set_sessions
                 (alter (refreshed env req new) i (User.sessions doc)) doc).
  assert (Hother : JwtPayload.sessionId payload ≠ UserSession.id session).
  { destruct Hnot_by_id as [Hempty|Hnone]; [congruence|].
    rewrite Forall_forall in Hnone. intros Heq.
    apply (Hnone session); [by eapply list_elem_of_lookup_2|done]. }
  assert (Hnew : new ≠ token).
  { intros Heq. destruct token as [raw|secret payload' iat exp]; [done|].
    simpl in Hverify. destruct (_ && _); [|done]. injection Hverify as ->.
    subst new tokens. simpl in Heq. injection Heq as _ Hpayload _ _.
    apply Hother. rewrite <- Hpayload. done. }
  assert (Hby_id1 :
            (if truthy (Some (JwtPayload.sessionId payload))
             then list_find (λ s, UserSession.id s = JwtPayload.sessionId payload
                                  ∧ UserSession.isActive s = true) (User.sessions doc1)
             else None) = None).
  { simpl. destruct (String.eqb_spec (JwtPayload.sessionId payload) "") as [Hempty|Hsid];
      simpl; [done|].
    destruct Hnot_by_id as [Hempty|Hnone]; [done|].
    apply list_find_None, Forall_alter; [done|]. intros x _ Hx.
    by destruct (refreshed_fields env req new x) as (-> & _ & ->). }
  assert (Hby_token1 :
            list_find (λ s, UserSession.refreshToken s = token
                            ∧ UserSession.isActive s = true) (User.sessions doc1) = None).
  { apply list_find_None, Forall_lookup. intros j s Hj [Htoken Hs_active].
    subst doc1. cbn [User.sessions User.set_sessions] in Hj.
    destruct (decide (j = i)) as [->|Hne].
    - rewrite list_lookup_alter_eq, Hi in Hj. injection Hj as <-.
      destruct (refreshed_fields env req new session) as (_ & Hrtoken & _). congruence.
    - rewrite list_lookup_alter_ne in Hj by done. by apply Hne, (Honce j s). }
  assert (Haccepted :
            refreshToken token req env st
            = (Ok (AuthTokens.mk (Tokens.accessToken tokens) new (toJSON doc1)),
               <[JwtPayload.sub payload := doc1]> st)).
  { apply (refreshToken_accepted_unique env st token req payload doc i session
             access refresh); try done.
    apply locate_session_Some. by right. }
  eexists _, doc1, (refreshed env req new session).
  split; [exact Haccepted|].
  destruct (refreshed_fields env req new session) as (Hrid & Hrtoken & _).
  split_and!; try done.
  - subst doc1. cbn [User.sessions User.set_sessions].
    by rewrite list_lookup_alter_eq, Hi.
  - assert (Hdoc1 : document (<[JwtPayload.sub payload := doc1]> st)
                      (JwtPayload.sub payload) = Some doc1)
      by (by apply document_filed).
    assert (Hactive1 : User.isActive doc1 = true) by done.
    unfold refreshToken, try_catch, bind, ask, findById, throw.
    rewrite Hverify2, Hdoc1, Hactive1. simpl negb. cbv iota.
    unfold locate_session. by rewrite Hby_id1, Hby_token1.
Qed.


(** ** The presence registry, further *)

Lemma no_empty_sets_empty : no_empty_sets Gateway.empty.
Proof. intros userId sockets. simpl. by rewrite lookup_empty. Qed.

Lemma track_no_empty_sets (userId clientId : string) (gw : Gateway.t) :
  no_empty_sets gw → no_empty_sets (track userId clientId gw).
Proof.
  intros Hgw u sockets. unfold track; simpl.
  destruct (decide (u = userId)) as [->|Hne].
  - rewrite lookup_insert_eq. intros [= <-] Hempty.
    apply (not_elem_of_empty (C := gset string) clientId). rewrite <- Hempty.
    by apply elem_of_union_r, elem_of_singleton.
  - rewrite lookup_insert_ne by done. apply Hgw.
Qed.

Lemma handleDisconnect_no_empty_sets (clientId : string) (gw : Gateway.t) :
  no_empty_sets gw → no_empty_sets (handleDisconnect clientId gw).
Proof.
  intros Hgw. unfold handleDisconnect.
  destruct (truthy (Gateway.socketToUser gw !! clientId)); [|done].
  destruct (Gateway.userSockets gw !! _) as [sockets|] eqn:Hsockets; [|done].
  intros u ss. simpl. case_bool_decide as Hsize.
  - destruct (decide (u = default "" (Gateway.socketToUser gw !! clientId))) as [->|Hne].
    + by rewrite lookup_delete_eq.
    + rewrite lookup_delete_ne by done. apply Hgw.
  - destruct (decide (u = default "" (Gateway.socketToUser gw !! clientId))) as [->|Hne].
    + rewrite lookup_insert_eq. intros [= <-] Hempty. apply Hsize.
      by rewrite Hempty, size_empty.
    + rewrite lookup_insert_ne by done. apply Hgw.
Qed.

Lemma gateway_run_no_empty_sets (config : Config) (evs : list SocketEvent) (gw : Gateway.t) :
  no_empty_sets gw → no_empty_sets (gateway_run config evs gw).
Proof.
  revert gw. induction evs as [|ev evs IH]; intros gw Hgw; [done|].
  simpl. apply IH. destruct ev as [now clientId h|clientId]; simpl.
  - destruct (authenticated_as config now h) as [userId|] eqn:Hauth.
    + rewrite (handleConnection_accepted _ _ _ _ _ _ Hauth). simpl.
      by apply track_no_empty_sets.
    + by rewrite handleConnection_rejected.
  - by apply handleDisconnect_no_empty_sets.
Qed.

(** X24.  After any sequence of connections and disconnections the views
    of presence agree: an identity is among the connected user ids exactly
    when [isUserConnected] holds, when its connection count is positive,
    and when [sendNotificationToUser] and [sendUnreadCountUpdate] emit to
    its room. *)
Theorem presence_views_agree (config : Config) (evs : list SocketEvent) (userId : string) :
  let gw := gateway_run config evs Gateway.empty in
  (userId ∈ getConnectedUserIds gw ↔ isUserConnected gw userId = true)
  ∧ (userId ∈ getConnectedUserIds gw ↔ (0 < getUserConnectionCount gw userId)%nat)
  ∧ (userId ∈ getConnectedUserIds gw
     ↔ sendNotificationToUser gw userId
       = [emit_to (String.append "user:" userId) "notification"])
  ∧ (userId ∉ getConnectedUserIds gw ↔ sendNotificationToUser gw userId = [])
  ∧ (userId ∈ getConnectedUserIds gw
     ↔ sendUnreadCountUpdate gw userId
       = [emit_to (String.append "user:" userId) "unreadCount"])
  ∧ (userId ∉ getConnectedUserIds gw ↔ sendUnreadCountUpdate gw userId = []).
Proof.
  intros gw.
  pose proof (gateway_run_no_empty_sets config evs _ no_empty_sets_empty userId) as Hgw.
  fold gw in Hgw.
  unfold sendNotificationToUser, sendUnreadCountUpdate, isUserConnected,
    getUserConnectionCount.
  rewrite getConnectedUserIds_elem.
  destruct (Gateway.userSockets gw !! userId) as [sockets|] eqn:Hsockets.
  - assert (0 < size sockets)%nat.
    { specialize (Hgw sockets eq_refl).
      destruct (decide (size sockets = 0%nat)) as [Hz%size_empty_iff|]; [|lia].
      by apply leibniz_equiv in Hz. }
    rewrite !bool_decide_eq_true_2 by done.
    split_and!; split; try done; try (by eexists); by intros [].
  - rewrite bool_decide_eq_false_2 by lia.
    split_and!; split; try done; try (by intros [? ?]); try lia.
Qed.

(** X25.  Disconnecting twice is disconnecting once, the reverse entries
    of the other sockets are left alone, and a socket that was never
    registered changes nothing. *)
Theorem handleDisconnect_idempotent (clientId : string) (gw : Gateway.t) :
  handleDisconnect clientId (handleDisconnect clientId gw) = handleDisconnect clientId gw
  ∧ (∀ other, other ≠ clientId →
       Gateway.socketToUser (handleDisconnect clientId gw) !! other
       = Gateway.socketToUser gw !! other)
  ∧ (Gateway.socketToUser gw !! clientId = None → handleDisconnect clientId gw = gw).
Proof.
  assert (Hunknown : ∀ gw', truthy (Gateway.socketToUser gw' !! clientId) = false →
                            handleDisconnect clientId gw' = gw')
    by (intros gw' Hnone; unfold handleDisconnect; by rewrite Hnone).
  split_and!; [| |by intros Hnone; apply Hunknown; rewrite Hnone].
  - apply Hunknown. unfold handleDisconnect.
    destruct (truthy (Gateway.socketToUser gw !! clientId)) eqn:Htruthy; [|done].
    simpl. by rewrite lookup_delete_eq.
  - intros other Hother. unfold handleDisconnect.
    destruct (truthy _); [|done]. simpl. by rewrite lookup_delete_ne.
Qed.

(** X26.  An accepted connection with a socket id that is not in the
    identity's set adds one to its connection count, reports the new count
    in the [connected] event, leaves the identity connected and leaves the
    counts of the other identities as they were. *)
Theorem handleConnection_counts
    (config : Config) (now : Z) (clientId userId : string) (h : Handshake) (gw : Gateway.t)
    (Hauth : authenticated_as config now h = Some userId)
    (Hnew : clientId ∉ default (∅ : gset string) (Gateway.userSockets gw !! userId)) :
  let gw' := (handleConnection config now clientId h gw).2 in
  (handleConnection config now clientId h gw).1
  = [emit_connected userId clientId (S (getUserConnectionCount gw userId))]
  ∧ getUserConnectionCount gw' userId = S (getUserConnectionCount gw userId)
  ∧ isUserConnected gw' userId = true
  ∧ Gateway.socketToUser gw' !! clientId = Some userId
  ∧ ∀ other, other ≠ userId →
      getUserConnectionCount gw' other = getUserConnectionCount gw other.
Proof.
  intros gw'. subst gw'. rewrite (handleConnection_accepted _ _ _ _ _ _ Hauth). simpl.
  assert (Hcount : getUserConnectionCount (track userId clientId gw) userId
                   = S (getUserConnectionCount gw userId)).
  { unfold getUserConnectionCount, track. simpl. rewrite lookup_insert_eq.
    rewrite size_union by (apply disjoint_singleton_r; done).
    rewrite size_singleton.
    destruct (Gateway.userSockets gw !! userId) as [sockets|];
      cbn [default from_option id]; [lia|].
    rewrite size_empty. lia. }
  split_and!.
  - by rewrite Hcount.
  - done.
  - unfold isUserConnected. unfold getUserConnectionCount in Hcount.
    destruct (Gateway.userSockets (track userId clientId gw) !! userId); [|done].
    apply bool_decide_eq_true_2. lia.
  - by rewrite lookup_insert_eq.
  - intros other Hother. unfold getUserConnectionCount, track. simpl.
    by rewrite lookup_insert_ne.
Qed.

(** X27.  In a consistent registry without empty sets, a socket id that is
    not registered connects and disconnects, and the registry is as it
    was. *)
Theorem connect_then_disconnect_restores
    (config : Config) (now : Z) (clientId userId : string) (h : Handshake) (gw : Gateway.t)
    (Hconsistent : registry_consistent gw)
    (Hsets : no_empty_sets gw)
    (Hfresh : Gateway.socketToUser gw !! clientId = None)
    (Hauth : authenticated_as config now h = Some userId) :
  handleDisconnect clientId (handleConnection config now clientId h gw).2 = gw.
Proof.
  rewrite (handleConnection_accepted _ _ _ _ _ _ Hauth). simpl.
  pose proof (authenticated_as_truthy _ _ _ _ Hauth) as Htruthy.
  destruct Hconsistent as [Hfwd _].
  assert (Hnotin : clientId ∉ default (∅ : gset string) (Gateway.userSockets gw !! userId)).
  { destruct (Gateway.userSockets gw !! userId) as [sockets|] eqn:Hsockets; simpl.
    - intros Hin. pose proof (Hfwd _ _ _ Hsockets Hin). congruence.
    - apply not_elem_of_empty. }
  rewrite (handleDisconnect_known clientId userId _
             (default ∅ (Gateway.userSockets gw !! userId) ∪ {[clientId]}));
    [|done|unfold track; simpl; by rewrite lookup_insert_eq
          |unfold track; simpl; by rewrite lookup_insert_eq].
  assert (Hback : (default (∅ : gset string) (Gateway.userSockets gw !! userId)
                   ∪ {[clientId]}) ∖ {[clientId]}
                  = default ∅ (Gateway.userSockets gw !! userId)).
  { apply set_eq. intros x.
    rewrite elem_of_difference, elem_of_union, elem_of_singleton.
    split; [by intros [[?|?] ?]|]. intros Hx. split; [by left|]. by intros ->. }
  rewrite Hback. unfold track. simpl.
  rewrite (delete_insert_eq (Gateway.socketToUser gw)),
    (delete_id (Gateway.socketToUser gw)) by done.
  destruct gw as [userSockets socketToUser]. simpl in *. f_equal.
  destruct (userSockets !! userId) as [sockets|] eqn:Hsockets;
    cbn [default from_option id].
  - rewrite bool_decide_eq_false_2.
    + rewrite insert_insert_eq. by apply insert_id.
    + intros Hsize%size_empty_iff. apply leibniz_equiv in Hsize.
      by apply (Hsets userId sockets).
  - rewrite size_empty, bool_decide_eq_true_2 by done.
    rewrite delete_insert_eq. by apply delete_id.
Qed.

Lemma total_connections_consistent (userSockets : gmap string (gset string)) :
  ∀ socketToUser : gmap string string,
    registry_consistent (Gateway.mk userSockets socketToUser) →
    map_fold (λ _ (sockets : gset string) total, (total + size sockets)%nat) 0%nat userSockets
    = size socketToUser.
Proof.
  induction userSockets as [|userId sockets userSockets Hnone IH] using map_ind;
    intros socketToUser [Hfwd Hrev]; simpl in *.
  - rewrite map_fold_empty. symmetry. apply map_size_empty_iff, map_empty.
    intros clientId. destruct (socketToUser !! clientId) as [u|] eqn:Hu; [|done].
    destruct (Hrev _ _ Hu) as (ss & Hss & _). by rewrite lookup_empty in Hss.
  - rewrite map_fold_insert_L; [|intros; lia|done].
    set (others := filter (λ entry : string * string, entry.2 ≠ userId) socketToUser).
    set (mine := filter (λ entry : string * string, ¬ entry.2 ≠ userId) socketToUser).
    assert (Hsplit : size socketToUser = (size others + size mine)%nat).
    { rewrite <- (map_filter_union_complement
                    (λ entry : string * string, entry.2 ≠ userId) socketToUser) at 1.
      apply map_size_disj_union, map_disjoint_filter_complement. }
    assert (Hmine : size mine = size sockets).
    { rewrite <- (size_dom (D := gset string) mine). f_equal. apply set_eq. intros c.
      rewrite elem_of_dom. unfold mine. split.
      - intros [u [Hu Hname]%map_lookup_filter_Some]. simpl in Hname.
        apply dec_stable in Hname as ->.
        destruct (Hrev _ _ Hu) as (ss & Hss & Hin).
        rewrite lookup_insert_eq in Hss. by injection Hss as <-.
      - intros Hin. exists userId. apply map_lookup_filter_Some. split.
        + apply (Hfwd userId sockets); [by rewrite lookup_insert_eq|done].
        + simpl. by intros ?. }
    rewrite Hsplit, Hmine, (IH others); [done|].
    split; simpl.
    + intros u ss c Hss Hin.
      assert (u ≠ userId) by (intros ->; congruence).
      apply map_lookup_filter_Some. split; [|done].
      apply (Hfwd u ss); [by rewrite lookup_insert_ne|done].
    + intros c u [Hu Hname]%map_lookup_filter_Some. simpl in Hname.
      destruct (Hrev _ _ Hu) as (ss & Hss & Hin).
      rewrite lookup_insert_ne in Hss by done. eauto.
Qed.

(** X28.  In a consistent registry the total number of connections, summed
    over the identities, is the number of registered sockets; so it is
    after any sequence of connections and disconnections in which no socket
    id connects while registered for another identity. *)
Theorem getTotalConnections_counts_sockets (config : Config) (evs : list SocketEvent)
    (Hfresh : connections_fresh config Gateway.empty evs) :
  let gw := gateway_run config evs Gateway.empty in
  getTotalConnections gw = size (Gateway.socketToUser gw)
  ∧ getTotalConnectedUsers gw = length (getConnectedUserIds gw).
Proof.
  intros gw. split.
  - unfold getTotalConnections.
    apply total_connections_consistent.
    assert (Hgw : registry_consistent gw)
      by (apply gateway_run_consistent; [apply registry_consistent_empty|done]).
    by destruct gw.
  - unfold getTotalConnectedUsers, getConnectedUserIds.
    by rewrite length_fmap, length_map_to_list.
Qed.

(** ** The gateway and revoked sessions *)

Lemma canActivate_rejects (token : Jwt) (payload : JwtPayload.t) (env : Env) (st : Store)
    (e : Exception) :
  jwt_verify (JWT_SECRET (cfg env)) (now env) token = Some payload →
  (validateUser payload env st).1 = Throw e →
  canActivate false (Some token) env st
  = (Throw (UnauthorizedException "Invalid token"), st).
Proof.
  intros Hverify Hthrow.
  unfold canActivate, authenticate, bind, ask, ret, try_catch, throw.
  by rewrite Hverify, (validate_rejects _ _ _ _ Hthrow).
Qed.

(** X29.  The gateway verifies the token and nothing else: after the user
    has logged out of all sessions, an access token that still verifies is
    refused by the guard of a protected route and accepted by
    [handleConnection], which registers the socket for the user. *)
Theorem gateway_accepts_logged_out_session
    (env env' : Env) (st : Store) (token : Jwt) (payload : JwtPayload.t)
    (h : Handshake) (clientId : string) (gw : Gateway.t)
    (Hverify : jwt_verify (JWT_SECRET (cfg env')) (now env') token = Some payload)
    (Hsub : JwtPayload.sub payload ≠ "")
    (Hhandshake : handshake_token h = Some token) :
  let st' := (logout (JwtPayload.sub payload) None env st).2 in
  let gw' := (handleConnection (cfg env') (now env') clientId h gw).2 in
  canActivate false (Some token) env' st'
  = (Throw (UnauthorizedException "Invalid token"), st')
  ∧ gw' = track (JwtPayload.sub payload) clientId gw
  ∧ Gateway.socketToUser gw' !! clientId = Some (JwtPayload.sub payload)
  ∧ isUserConnected gw' (JwtPayload.sub payload) = true.
Proof.
  intros st' gw'.
  assert (Hrejected : ∃ message,
             (validateUser payload env' st').1 = Throw (UnauthorizedException message)).
  { subst st'. rewrite logout_store.
    destruct (document st (JwtPayload.sub payload)) as [doc|] eqn:Hdoc.
    - apply (validateUser_without_sessions _ (User.set_sessions [] doc));
        [by apply document_filed|done].
    - unfold validateUser, findById, bind, throw. rewrite Hdoc. simpl. eauto. }
  destruct Hrejected as [message Hrejected].
  assert (Hauth : authenticated_as (cfg env') (now env') h = Some (JwtPayload.sub payload)).
  { unfold authenticated_as. rewrite Hhandshake.
    assert (present (Some token) = true) as ->
      by (destruct token as [raw|]; [by simpl in Hverify|done]).
    simpl. rewrite Hverify. by apply String.eqb_neq in Hsub as ->. }
  assert (Hgw : gw' = track (JwtPayload.sub payload) clientId gw)
    by (subst gw'; by rewrite (handleConnection_accepted _ _ _ _ _ _ Hauth)).
  split_and!.
  - by apply (canActivate_rejects _ payload _ _ (UnauthorizedException message)).
  - done.
  - rewrite Hgw. unfold track. simpl. by rewrite lookup_insert_eq.
  - rewrite Hgw. unfold isUserConnected, track. simpl. rewrite lookup_insert_eq.
    apply bool_decide_eq_true_2.
    rewrite size_union_alt. pose proof (size_singleton (C := gset string) clientId).
    assert (Hin : clientId ∈ default (∅ : gset string)
                    (Gateway.userSockets gw !! JwtPayload.sub payload) ∪ {[clientId]})
      by (by apply elem_of_union_r, elem_of_singleton).
    apply elem_of_union in Hin.
    destruct (decide (size (default (∅ : gset string)
                              (Gateway.userSockets gw !! JwtPayload.sub payload)
                            ∪ {[clientId]}) = 0%nat)) as [Hz|Hnz].
    + apply size_empty_iff in Hz. apply leibniz_equiv in Hz.
      exfalso. apply (not_elem_of_empty (C := gset string) clientId).
      rewrite <- Hz. by apply elem_of_union_r, elem_of_singleton.
    + rewrite size_union_alt in Hnz. lia.
Qed.

(** ** The further properties on the scenario *)

Import Devices.

(** Alice logs out of [s2]; the token of [s1] is still good. *)
Lemma logout_keeps_other_sessions_witness :
  ∃ doc',
    (validateUser payload0 (at_ (t0 + 60000) "unused")
       (logout "u1" (Some "s2") (at_ (t0 + 30000) "unused") store12).2).1 = Ok doc'
    ∧ User._id doc' = User._id alice12.
Proof.
  apply (logout_keeps_other_sessions
           (at_ (t0 + 30000) "unused") (at_ (t0 + 60000) "unused") store12 "u1" "s2"
           payload0 alice12).
  - discriminate.
  - discriminate.
  - reflexivity.
Defined.

(** Alice logs out without naming a session: both sessions go. *)
Lemma logout_without_session_clears_witness :
  ∃ doc',
    logout "u1" None (at_ (t0 + 30000) "unused") store12
    = (Ok tt, <["u1" := doc']> store12)
    ∧ document (<["u1" := doc']> store12) "u1" = Some doc'
    ∧ User.sessions doc' = []
    ∧ ∀ payload env',
        JwtPayload.sub payload = "u1" →
        ∃ message,
          (validateUser payload env' (<["u1" := doc']> store12)).1
          = Throw (UnauthorizedException message).
Proof.
  apply (logout_without_session_clears
           (at_ (t0 + 30000) "unused") store12 "u1" None alice12).
  - reflexivity.
  - reflexivity.
Defined.

(** Alice logs out of [s1] twice; Bob's document is as it was. *)
Lemma logout_idempotent_and_local_witness :
  (logout "u1" (Some "s1") (at_ (t0 + 40000) "unused")
     (logout "u1" (Some "s1") (at_ (t0 + 30000) "unused") store12b).2).2
  = (logout "u1" (Some "s1") (at_ (t0 + 30000) "unused") store12b).2
  ∧ document (logout "u1" (Some "s1") (at_ (t0 + 30000) "unused") store12b).2 "u2"
    = document store12b "u2".
Proof.
  destruct (logout_idempotent_and_local
              (at_ (t0 + 30000) "unused") (at_ (t0 + 40000) "unused") store12b "u1"
              (Some "s1")) as [Hsame Hlocal].
  split; [exact Hsame|]. apply Hlocal. discriminate.
Defined.

(** Alice terminates [s2]. *)
Lemma terminateSession_removes_witness :
  let doc' :=
    User.set_sessions (filter (λ s, UserSession.id s ≠ "s2") (User.sessions alice12))
      alice12 in
  terminateSession alice_ref "s2" (at_ (t0 + 30000) "unused") store12
  = (Ok "Session terminated successfully", <["u1" := doc']> store12)
  ∧ document (<["u1" := doc']> store12) "u1" = Some doc'
  ∧ ∀ payload env',
      JwtPayload.sub payload = "u1" →
      JwtPayload.sessionId payload = "s2" →
      ∃ message,
        (validateUser payload env' (<["u1" := doc']> store12)).1
        = Throw (UnauthorizedException message).
Proof.
  apply (terminateSession_removes
           (at_ (t0 + 30000) "unused") store12 alice_ref "u1" "s2" alice12).
  - reflexivity.
  - reflexivity.
  - apply Exists_cons_tl, Exists_cons_hd. reflexivity.
Defined.


(** Alice lists her sessions half a second after the seventh day: [s1]
    has expired and goes, [s2] is listed. *)
Lemma getUserSessions_purges_witness :
  let kept :=
    filter (λ session, UserSession.isActive session = true
                       ∧ t0 + 7 * day + 500 < UserSession.expiresAt session)
           (User.sessions alice12) in
  getUserSessions alice_ref (at_ (t0 + 7 * day + 500) "unused") store12
  = (Ok (hide_refreshToken <$> kept), <["u1" := User.set_sessions kept alice12]> store12)
  ∧ document (<["u1" := User.set_sessions kept alice12]> store12) "u1"
    = Some (User.set_sessions kept alice12).
Proof.
  apply (getUserSessions_purges
           (at_ (t0 + 7 * day + 500) "unused") store12 alice_ref "u1" alice12).
  - reflexivity.
  - reflexivity.
Defined.

(** A sweep at [t0 + 30000] and a request a minute after the login. *)
Lemma cleanupExpiredSessions_keeps_live_witness :
  ∃ doc',
    (validateUser payload0 (at_ (t0 + 60000) "unused")
       (cleanupExpiredSessions (at_ (t0 + 30000) "unused") store12).2).1 = Ok doc'
    ∧ User._id doc' = User._id alice12.
Proof.
  apply (cleanupExpiredSessions_keeps_live
           (at_ (t0 + 30000) "unused") (at_ (t0 + 60000) "unused") store12 payload0 alice12).
  - reflexivity.
  - vm_compute. discriminate.
Defined.

(** A request of Alice a minute after her login. *)
Lemma guard_attaches_stored_identity_witness :
  ∃ token payload doc,
    Some access0 = Some token
    ∧ jwt_verify (JWT_SECRET (cfg (at_ (t0 + 60000) "unused")))
        (now (at_ (t0 + 60000) "unused")) token = Some payload
    ∧ document store1 (JwtPayload.sub payload) = Some doc
    ∧ nu_userId attached0 = JwtPayload.sub payload
    ∧ nu__id attached0 = JwtPayload.sub payload
    ∧ nu_id attached0 = JwtPayload.sub payload
    ∧ nu_sub attached0 = JwtPayload.sub payload
    ∧ nu_sessionId attached0 = JwtPayload.sessionId payload
    ∧ nu_role attached0 = User.role doc
    ∧ nu_email attached0 = User.email doc
    ∧ nu_phoneNumber attached0 = User.phoneNumber doc
    ∧ nu_isActive attached0 = true.
Proof.
  apply (guard_attaches_stored_identity
           false (Some access0) (at_ (t0 + 60000) "unused") store1 attached0).
  reflexivity.
Defined.

(** Alice, with two sessions, calls the logout endpoint with the token of
    [s1]. *)
Lemma logout_endpoint_ends_all_sessions_witness :
  ∃ doc',
    AuthController.logout (StrategyUser attached0) (at_ (t0 + 61000) "unused") store12
    = (Ok tt, <[nu_userId attached0 := doc']> store12)
    ∧ document (<[nu_userId attached0 := doc']> store12) (nu_userId attached0) = Some doc'
    ∧ User.sessions doc' = []
    ∧ ∀ payload env',
        JwtPayload.sub payload = nu_userId attached0 →
        ∃ message,
          (validateUser payload env' (<[nu_userId attached0 := doc']> store12)).1
          = Throw (UnauthorizedException message).
Proof.
  apply (logout_endpoint_ends_all_sessions
           (Some access0) (at_ (t0 + 60000) "unused") (at_ (t0 + 61000) "unused") store12
           attached0).
  reflexivity.
Defined.

(** She calls the endpoint that terminates the other sessions instead. *)
Lemma terminateAllSessions_endpoint_ends_all_sessions_witness :
  ∃ doc',
    AuthController.terminateAllSessions (StrategyUser attached0)
      (at_ (t0 + 61000) "unused") store12
    = (Ok "All other sessions terminated successfully",
       <[nu_userId attached0 := doc']> store12)
    ∧ document (<[nu_userId attached0 := doc']> store12) (nu_userId attached0) = Some doc'
    ∧ User.sessions doc' = []
    ∧ ∀ payload env',
        JwtPayload.sub payload = nu_userId attached0 →
        ∃ message,
          (validateUser payload env' (<[nu_userId attached0 := doc']> store12)).1
          = Throw (UnauthorizedException message).
Proof.
  apply (terminateAllSessions_endpoint_ends_all_sessions
           (Some access0) (at_ (t0 + 60000) "unused") (at_ (t0 + 61000) "unused") store12
           attached0).
  reflexivity.
Defined.

(** Alice logs in under [config_abc], then under [config]. *)
Lemma login_bounds_sessions_witness :
  generateTokens alice None None {| cfg := config_abc; now := t0; randomUUID := "s1" |}
    store0
  = (Throw TimespanError, store0)
  ∧ ∃ tokens user',
      generateTokens alice None None (at_ t0 "s1") store0
        = (Ok (tokens, user'), <[User._id alice := user']> store0)
      ∧ (length (User.sessions user') ≤ 10)%nat
      ∧ Forall (λ s, now (at_ t0 "s1") < UserSession.expiresAt s) (User.sessions user')
      ∧ Forall (λ s, s ∈ User.sessions alice
                     ∨ (s = newSession (at_ t0 "s1") None (Tokens.refreshToken tokens)
                        ∧ valid_date (UserSession.expiresAt s)
                        ∧ UserSession.createdAt s < UserSession.expiresAt s))
               (User.sessions user').
Proof.
  split.
  - apply (login_bounds_sessions alice None
             {| cfg := config_abc; now := t0; randomUUID := "s1" |} store0).
    intros [_ [refresh Hrefresh]]. discriminate Hrefresh.
  - apply (login_bounds_sessions alice None (at_ t0 "s1") store0).
    split; by eexists.
Defined.

(** The second login of Alice. *)
Lemma login_preserves_unique_ids_witness :
  ∃ tokens user',
    generateTokens alice1 None None (at_ (t0 + 1000) "s2") store1
      = (Ok (tokens, user'), <[User._id alice1 := user']> store1)
    ∧ NoDup (UserSession.id <$> User.sessions user').
Proof.
  apply (login_preserves_unique_ids alice1 None (at_ (t0 + 1000) "s2") store1).
  - vm_compute. apply NoDup_singleton.
  - vm_compute. intros Hin. apply elem_of_cons in Hin as [Hin|Hin]; [discriminate Hin|].
    by apply elem_of_nil in Hin.
  - split; by eexists.
Defined.

(** Alice logs in and sends a request a minute later. *)
Lemma login_then_guard_accepts_witness :
  ∃ tokens user' attached,
    generateTokens alice None None (at_ t0 "s1") store0
      = (Ok (tokens, user'), <[User._id alice := user']> store0)
    ∧ canActivate false (Some (Tokens.accessToken tokens)) (at_ (t0 + 60000) "unused")
        (<[User._id alice := user']> store0)
      = (Ok (Some attached), <[User._id alice := user']> store0)
    ∧ nu_userId attached = User._id alice
    ∧ nu_sessionId attached = randomUUID (at_ t0 "s1").
Proof.
  apply (login_then_guard_accepts alice None (at_ t0 "s1") (at_ (t0 + 60000) "unused")
           store0 900 604800).
  - reflexivity.
  - reflexivity.
  - reflexivity.
  - vm_compute. split; discriminate.
  - reflexivity.
  - vm_compute. lia.
  - vm_compute. intros Hin. by apply elem_of_nil in Hin.
  - reflexivity.
  - reflexivity.
  - vm_compute. discriminate.
Defined.

(** Alice logs in and refreshes a day later. *)
Lemma login_then_refresh_accepts_witness :
  ∃ tokens user' refreshed_tokens user'',
    generateTokens alice None None (at_ t0 "s1") store0
      = (Ok (tokens, user'), <[User._id alice := user']> store0)
    ∧ refreshToken (Tokens.refreshToken tokens) None (at_ (t0 + day) "unused")
        (<[User._id alice := user']> store0)
      = (Ok refreshed_tokens, <[User._id alice := user'']> store0)
    ∧ JwtPayload.sessionId <$> jwt_decode (AuthTokens.accessToken refreshed_tokens)
      = Some (randomUUID (at_ t0 "s1"))
    ∧ JwtPayload.sessionId <$> jwt_decode (AuthTokens.refreshToken refreshed_tokens)
      = Some (randomUUID (at_ t0 "s1")).
Proof.
  apply (login_then_refresh_accepts alice None None (at_ t0 "s1") (at_ (t0 + day) "unused")
           store0 900 604800).
  - reflexivity.
  - reflexivity.
  - reflexivity.
  - vm_compute. split; discriminate.
  - reflexivity.
  - vm_compute. lia.
  - vm_compute. apply NoDup_nil_2.
  - vm_compute. intros Hin. by apply elem_of_nil in Hin.
  - discriminate.
  - reflexivity.
  - reflexivity.
  - vm_compute. discriminate.
Defined.

(** Alice's two tokens, each presented where the other belongs. *)
Lemma token_kinds_not_interchangeable_witness :
  refreshToken access0 None (at_ (t0 + 60000) "unused") store1
  = (Throw (UnauthorizedException "Invalid refresh token"), store1)
  ∧ canActivate false (Some refresh0) (at_ (t0 + 60000) "unused") store1
    = (Throw (UnauthorizedException "Access token required"), store1)
  ∧ handleConnection (cfg (at_ (t0 + 60000) "unused")) (now (at_ (t0 + 60000) "unused"))
      "tab-1" (handshake_of refresh0) Gateway.empty
    = ([emit_error "Invalid or expired token"; disconnect], Gateway.empty).
Proof.
  apply (token_kinds_not_interchangeable alice "s1" (at_ t0 "s1")
           (at_ (t0 + 60000) "unused") 900 604800 store1 None (handshake_of refresh0)
           "tab-1" Gateway.empty).
  - reflexivity.
  - discriminate.
  - reflexivity.
Defined.

(** Dave refreshes with his legacy token a day after [t0]: the session is
    found under the value of the token. *)
Lemma refresh_keeps_deadline_witness :
  ∃ payload doc i session doc' session',
    jwt_verify (JWT_REFRESH_SECRET (cfg (at_ (t0 + day) "unused")))
      (now (at_ (t0 + day) "unused")) legacy0 = Some payload
    ∧ document store_legacy (JwtPayload.sub payload) = Some doc
    ∧ (located_by_id payload (User.sessions doc) i session
       ∨ located_by_token payload legacy0 (User.sessions doc) i session)
    ∧ store_legacy1 = <[JwtPayload.sub payload := doc']> store_legacy
    ∧ document store_legacy1 (JwtPayload.sub payload) = Some doc'
    ∧ UserSession.expiresAt <$> User.sessions doc'
      = UserSession.expiresAt <$> User.sessions doc
    ∧ UserSession.createdAt <$> User.sessions doc'
      = UserSession.createdAt <$> User.sessions doc
    ∧ UserSession.id <$> User.sessions doc' = UserSession.id <$> User.sessions doc
    ∧ User.sessions doc' !! i = Some session'
    ∧ UserSession.lastActive session' = now (at_ (t0 + day) "unused").
Proof.
  apply (refresh_keeps_deadline legacy0 None (at_ (t0 + day) "unused") store_legacy
           store_legacy1
           (AuthTokens.mk (Tokens.accessToken legacy1) (Tokens.refreshToken legacy1)
              (toJSON dave1))).
  - apply map_Forall_singleton. repeat constructor. discriminate.
  - reflexivity.
Defined.

(** Alice refreshes under [config_abc] a day after her login: her session
    is touched and saved, then the signing fails. *)
Lemma refreshToken_failure_witness :
  let env := {| cfg := config_abc; now := t0 + day; randomUUID := "unused" |} in
  UnauthorizedException "Invalid refresh token"
  = UnauthorizedException "Invalid refresh token"
  ∧ ((refreshToken refresh0 None env store1).2 = store1
     ∨ ∃ payload doc i session,
         jwt_verify (JWT_REFRESH_SECRET (cfg env)) (now env) refresh0 = Some payload
         ∧ document store1 (JwtPayload.sub payload) = Some doc
         ∧ locate_session payload refresh0 (User.sessions doc) = Some (i, session)
         ∧ ((UserSession.expiresAt session < now env
             ∧ (refreshToken refresh0 None env store1).2
               = <[JwtPayload.sub payload :=
                     User.set_sessions
                       (filter (λ s, UserSession.id s ≠ UserSession.id session)
                               (User.sessions doc)) doc]> store1)
            ∨ (now env ≤ UserSession.expiresAt session
               ∧ ¬ signs (cfg env)
               ∧ (refreshToken refresh0 None env store1).2
                 = <[JwtPayload.sub payload :=
                       User.set_sessions
                         (alter (touched env None) i (User.sessions doc)) doc]> store1))).
Proof.
  apply (refreshToken_failure refresh0 None
           {| cfg := config_abc; now := t0 + day; randomUUID := "unused" |} store1
           (UnauthorizedException "Invalid refresh token")).
  reflexivity.
Defined.

(** Dave refreshes with his legacy token a day after [t0], and presents it
    again the day after. *)
Lemma fallback_refuses_superseded_token_witness :
  ∃ first doc1 rotated,
    refreshToken legacy0 None (at_ (t0 + day) "unused") store_legacy
    = (Ok first, <["u4" := doc1]> store_legacy)
    ∧ User.sessions doc1 !! 0%nat = Some rotated
    ∧ UserSession.id rotated = "s0"
    ∧ UserSession.refreshToken rotated = AuthTokens.refreshToken first
    ∧ AuthTokens.refreshToken first ≠ legacy0
    ∧ JwtPayload.sessionId <$> jwt_decode (AuthTokens.refreshToken first) = Some "s0"
    ∧ refreshToken legacy0 None (at_ (t0 + 2 * day) "unused") (<["u4" := doc1]> store_legacy)
      = (Throw (UnauthorizedException "Invalid refresh token"),
         <["u4" := doc1]> store_legacy).
Proof.
  apply (fallback_refuses_superseded_token
           (at_ (t0 + day) "unused") (at_ (t0 + 2 * day) "unused") store_legacy legacy0
           None None (payload_for dave0 "") dave 0%nat legacy_session 900 604800).
  - reflexivity.
  - reflexivity.
  - reflexivity.
  - split; [by left|reflexivity].
  - vm_compute. discriminate.
  - discriminate.
  - vm_compute. apply NoDup_singleton.
  - intros [|j] s Hj _ _; [reflexivity|]. discriminate Hj.
  - reflexivity.
  - reflexivity.
  - reflexivity.
Defined.

(** The first tab of Alice disconnects twice; the second stays registered. *)
Lemma handleDisconnect_idempotent_witness :
  handleDisconnect "tab-1"
    (handleDisconnect "tab-1" (gateway_run config two_tabs Gateway.empty))
  = handleDisconnect "tab-1" (gateway_run config two_tabs Gateway.empty)
  ∧ Gateway.socketToUser
      (handleDisconnect "tab-1" (gateway_run config two_tabs Gateway.empty)) !! "tab-2"
    = Gateway.socketToUser (gateway_run config two_tabs Gateway.empty) !! "tab-2"
  ∧ handleDisconnect "tab-3" (gateway_run config two_tabs Gateway.empty)
    = gateway_run config two_tabs Gateway.empty.
Proof.
  destruct (handleDisconnect_idempotent "tab-1" (gateway_run config two_tabs Gateway.empty))
    as (Htwice & Hothers & _).
  destruct (handleDisconnect_idempotent "tab-3" (gateway_run config two_tabs Gateway.empty))
    as (_ & _ & Hunknown).
  split_and!; [exact Htwice|apply Hothers; discriminate|apply Hunknown; reflexivity].
Defined.

(** A third tab of Alice. *)
Lemma handleConnection_counts_witness :
  let gw := gateway_run config two_tabs Gateway.empty in
  let gw' := (handleConnection config (t0 + 3000) "tab-3" (handshake_of access0) gw).2 in
  (handleConnection config (t0 + 3000) "tab-3" (handshake_of access0) gw).1
  = [emit_connected "u1" "tab-3" (S (getUserConnectionCount gw "u1"))]
  ∧ getUserConnectionCount gw' "u1" = S (getUserConnectionCount gw "u1")
  ∧ isUserConnected gw' "u1" = true
  ∧ Gateway.socketToUser gw' !! "tab-3" = Some "u1"
  ∧ ∀ other, other ≠ "u1" →
      getUserConnectionCount gw' other = getUserConnectionCount gw other.
Proof.
  apply (handleConnection_counts config (t0 + 3000) "tab-3" "u1" (handshake_of access0)
           (gateway_run config two_tabs Gateway.empty)).
  - reflexivity.
  - apply (bool_decide_unpack _). vm_compute. exact I.
Defined.

(** The third tab opens and closes. *)
Lemma connect_then_disconnect_restores_witness :
  handleDisconnect "tab-3"
    (handleConnection config (t0 + 3000) "tab-3" (handshake_of access0)
       (gateway_run config two_tabs Gateway.empty)).2
  = gateway_run config two_tabs Gateway.empty.
Proof.
  apply (connect_then_disconnect_restores config (t0 + 3000) "tab-3" "u1"
           (handshake_of access0) (gateway_run config two_tabs Gateway.empty)).
  - apply gateway_run_consistent; [apply registry_consistent_empty|].
    simpl. split_and!; try done; intros userId _; left; reflexivity.
  - apply gateway_run_no_empty_sets, no_empty_sets_empty.
  - reflexivity.
  - reflexivity.
Defined.

(** Two tabs of Alice and one of Bob. *)
Lemma getTotalConnections_counts_sockets_witness :
  let gw :=
    gateway_run config
      (two_tabs ++ [Connection (t0 + 3000) "tab-3" (handshake_of access_u2)])
      Gateway.empty in
  getTotalConnections gw = size (Gateway.socketToUser gw)
  ∧ getTotalConnectedUsers gw = length (getConnectedUserIds gw).
Proof.
  apply (getTotalConnections_counts_sockets config
           (two_tabs ++ [Connection (t0 + 3000) "tab-3" (handshake_of access_u2)])).
  simpl. split_and!; try done; intros userId _; left; reflexivity.
Defined.

(** Alice logs out everywhere; a minute after her login her access token
    opens a socket. *)
Lemma gateway_accepts_logged_out_session_witness :
  let st' := (logout (JwtPayload.sub payload0) None (at_ (t0 + 30000) "unused") store12).2 in
  let gw' :=
    (handleConnection (cfg (at_ (t0 + 60000) "unused")) (now (at_ (t0 + 60000) "unused"))
       "tab-1" (handshake_of access0) Gateway.empty).2 in
  canActivate false (Some access0) (at_ (t0 + 60000) "unused") st'
  = (Throw (UnauthorizedException "Invalid token"), st')
  ∧ gw' = track (JwtPayload.sub payload0) "tab-1" Gateway.empty
  ∧ Gateway.socketToUser gw' !! "tab-1" = Some (JwtPayload.sub payload0)
  ∧ isUserConnected gw' (JwtPayload.sub payload0) = true.
Proof.
  apply (gateway_accepts_logged_out_session
           (at_ (t0 + 30000) "unused") (at_ (t0 + 60000) "unused") store12 access0 payload0
           (handshake_of access0) "tab-1" Gateway.empty).
  - reflexivity.
  - discriminate.
  - reflexivity.
Defined.
